(** * Replication plugin of RxDB: the cycle runner and the controller

    Shallow embedding of [src/plugins/replication/index.ts]
    (class [RxReplicationStateBase] and function [replicateRxCollection]).

    The class is written with [async]/[await] on a single-threaded event
    loop.  Every [await] of a collaborator (handlers, storage instance,
    checkpoint store, idle promise) is a suspension point at which other
    callers may enter [run()] or [cancel()].  The embedding keeps this
    structure: an [async] method is cut at its awaits, the code between two
    awaits is one function on the [World], and the suspended frame is a
    value of type [pc].  Awaits of the class's own methods
    ([await this.runPush()], [await this._run(..)]) continue as soon as the
    callee returns and are not cut. *)

From stdpp Require Import gmap strings list pretty.

Set Warnings "-register-all".

(** ** Documents and the object heap *)

(** JSON values stored in the fields of a document. *)
Inductive json :=
| JNull
| JBool (b : bool)
| JNum (n : Z)
| JStr (s : string)
| JArr (items : list json)
| JObj (fields : list (string * json)).

(** A JavaScript object: its own properties. *)
Abbreviation obj := (gmap string json).

(** Objects are passed by reference; [loc] is the identity of an object and
    the heap holds the current properties of every allocated object.
    Allocation appends, so [length h] is always a fresh location. *)
Definition loc := nat.
Abbreviation heap := (list obj).

Definition heap_get (h : heap) (l : loc) : obj := default ∅ (h !! l).

(** [doc[k] = v] *)
Definition set_prop (h : heap) (l : loc) (k : string) (v : json) : heap :=
  alter (insert k v) l h.

(** [delete doc[k]] *)
Definition delete_prop (h : heap) (l : loc) (k : string) : heap :=
  alter (delete k) l h.

(** [doc.hasOwnProperty(k)] *)
Definition hasOwnProperty (h : heap) (l : loc) (k : string) : bool :=
  bool_decide (is_Some (heap_get h l !! k)).

(** Modelled from the spec: [flatClone] of [util] is not part of the given
    sources; the spec calls it a shallow clone.  A new object with the same
    own properties is allocated, the argument is left as it is. *)
Definition flatClone (h : heap) (l : loc) : heap * loc :=
  (h ++ [heap_get h l], length h).

(** Modelled from the spec: [lastOfArray] of [util] is not part of the given
    sources; [lastOfArray(ar)] is [ar[ar.length - 1]]. *)
Definition lastOfArray {A} (ar : list A) : option A := last ar.

(** ** Types of the replication protocol *)

(** [RxDocumentData]: a document of the local storage instance.  The code
    below reads nothing but [_rev] from it. *)
Record RxDocumentData := { doc_rev : string; doc_data : obj }.

(** [{ doc, sequence }] rows of the change collector. *)
Record PushChangeRow := { row_doc : loc; row_sequence : Z }.

(** Result of [getChangesSinceLastPushSequence]; [changedDocs] is a
    [Map<docId, row>], kept in insertion order. *)
Record ChangesResult := {
  changedDocs : list (string * PushChangeRow);
  lastSequence : Z
}.

Record ReplicationPullHandlerResult := {
  documents : list loc;
  hasMoreDocuments : bool
}.

(** [ReplicationPushOptions]; the handler is part of the environment.
    [batchSize] is optional. *)
Record ReplicationPushOptions := { batchSize : option Z }.

(** [ReplicationOptions] as [replicateRxCollection] destructures them.  The
    pull options carry only the handler, so [pull] records whether they are
    given. *)
Record ReplicationOptions := {
  opt_replicationIdentifier : string;
  opt_pull : bool;
  opt_push : option ReplicationPushOptions;
  opt_live : option bool;
  opt_liveInterval : option Z;
  opt_retryTime : option Z;
  opt_waitForLeadership : bool
}.

(** Change events of [collection.$]: [isLocal] and the payload document.
    Modelled from the spec: [getDocumentDataOfRxChangeEvent] of
    [rx-change-event] is not part of the given sources; the spec says the
    subscriber fetches the current document of the change. *)
Record RxChangeEvent := { isLocal : bool; documentData : obj }.

Definition getDocumentDataOfRxChangeEvent (cE : RxChangeEvent) : obj :=
  documentData cE.

(** Functions of sibling modules that are not part of the given sources
    ([revision-flag], [util], [rx-collection-helper], the schema).  They are
    pure; everything below holds for any choice of them. *)
Class Collaborators := {
  wasRevisionfromPullReplication : string -> string -> bool;
  createRevisionForPulledDocument : string -> obj -> string;
  getHeightOfRevision : string -> Z;
  _handleToStorageInstance : obj -> obj;
  (** [schema.validate(doc)]: [None] when it returns, [Some err] when it
      throws [err]. *)
  schema_validate : obj -> option string
}.

(** ** Events

    What the replication state does to the outside: values pushed into its
    subjects, calls of collaborators, timers.  [Entered] marks the entry of
    a method of the class. *)
Inductive method := M_run | M_runPush | M_runPull | M_handleDocumentsFromRemote.

Inductive event :=
| Received (doc : loc)
| Send (doc : loc)
| Error (err : string)
| Canceled (v : bool)
| Active (v : bool)
| InitialReplicationComplete (v : bool)
| RequestIdlePromise
| GetChangesSinceLastPushSequence (identifier : string) (size : Z)
| PushHandler (docs : list loc)
| SetLastPushSequence (identifier : string) (sequence : Z)
| GetLastPullDocument (identifier : string)
| PullHandler (latestDocument : option loc)
| FindDocumentsById (docIds : list (option json))
| BulkAddRevisions (docs : list obj)
| SetLastPullDocument (identifier : string) (doc : loc)
| SetTimeout (ms : Z)
| Unsubscribe
| WaitForLeadership
| Entered (m : method).

(** Emissions of the six observables of the facade. *)
Definition is_emission (e : event) : bool :=
  match e with
  | Received _ | Send _ | Error _ | Canceled _ | Active _
  | InitialReplicationComplete _ => true
  | _ => false
  end.

(** ** Suspended frames

    One constructor per [await] of a collaborator.  [retryOnFail] is the
    argument of the cycle; [outer] tells whether the suspended invocation of
    [runPush]/[runPull] is the one called by [_run] ([true]) or a recursive
    one ([false]). *)
Inductive pc :=
| AtRequestIdlePromise (retryOnFail : bool)
| AtGetChanges (retryOnFail outer : bool)
| AtPushHandler (retryOnFail outer : bool)
    (changesResult : ChangesResult) (pushDocs : list loc)
| AtSetLastPushSequence (retryOnFail outer : bool)
    (changesResult : ChangesResult)
| AtGetLastPullDocument (retryOnFail outer : bool)
| AtPullHandler (retryOnFail outer : bool)
| AtFindDocumentsById (retryOnFail outer : bool)
    (result : ReplicationPullHandlerResult)
| AtBulkAddRevisions (retryOnFail outer : bool)
    (result : ReplicationPullHandlerResult)
| AtSetLastPullDocument (retryOnFail outer : bool)
    (result : ReplicationPullHandlerResult).

(** How an awaited promise settles. *)
Inductive response :=
| Resolved
| ResolvedChanges (changesResult : ChangesResult)
| ResolvedLastPullDocument (latestDocument : option loc)
| ResolvedPull (result : ReplicationPullHandlerResult)
| ResolvedFound (docsFromLocal : gmap string RxDocumentData)
| Rejected (err : string).

(** ** The replication state and its surroundings *)
Record World := {
  (* constructor arguments *)
  replicationIdentifier : string;
  pull : bool;
  push : option ReplicationPushOptions;
  live : bool;
  liveInterval : Z;
  retryTime : Z;
  (* current values of the three BehaviorSubjects *)
  canceled : bool;
  active : bool;
  initialReplicationComplete : bool;
  runQueueCount : Z;
  runCount : Z;
  (* runningPromise: the closure that is executing, suspended at an await;
     the closures chained behind it, each with its [retryOnFail]; whether
     the chain has been rejected *)
  running : option pc;
  queued : list bool;
  rejected : bool;
  (* subs: whether the change-stream subscription is open *)
  subscribed : bool;
  (* the interval loop of the controller has not returned *)
  looping : bool;
  (* the collection and the runtime *)
  destroyed : bool;
  devMode : bool;
  primaryPath : string;
  objects : heap;
  timers : list Z;
  log : list event
}.

(** Assignments to the fields. *)
Definition set_canceled (v : bool) (w : World) : World :=
  {| replicationIdentifier := replicationIdentifier w; pull := pull w; push
     := push w; live := live w; liveInterval := liveInterval w; retryTime :=
     retryTime w; canceled := v; active := active w;
     initialReplicationComplete := initialReplicationComplete w;
     runQueueCount := runQueueCount w; runCount := runCount w; running :=
     running w; queued := queued w; rejected := rejected w; subscribed :=
     subscribed w; looping := looping w; destroyed := destroyed w; devMode
     := devMode w; primaryPath := primaryPath w; objects := objects w;
     timers := timers w; log := log w |}.

Definition set_active (v : bool) (w : World) : World :=
  {| replicationIdentifier := replicationIdentifier w; pull := pull w; push
     := push w; live := live w; liveInterval := liveInterval w; retryTime :=
     retryTime w; canceled := canceled w; active := v;
     initialReplicationComplete := initialReplicationComplete w;
     runQueueCount := runQueueCount w; runCount := runCount w; running :=
     running w; queued := queued w; rejected := rejected w; subscribed :=
     subscribed w; looping := looping w; destroyed := destroyed w; devMode
     := devMode w; primaryPath := primaryPath w; objects := objects w;
     timers := timers w; log := log w |}.

Definition set_initialReplicationComplete (v : bool) (w : World) : World :=
  {| replicationIdentifier := replicationIdentifier w; pull := pull w; push
     := push w; live := live w; liveInterval := liveInterval w; retryTime :=
     retryTime w; canceled := canceled w; active := active w;
     initialReplicationComplete := v; runQueueCount := runQueueCount w;
     runCount := runCount w; running := running w; queued := queued w;
     rejected := rejected w; subscribed := subscribed w; looping := looping
     w; destroyed := destroyed w; devMode := devMode w; primaryPath :=
     primaryPath w; objects := objects w; timers := timers w; log := log w
     |}.

Definition set_runQueueCount (v : Z) (w : World) : World :=
  {| replicationIdentifier := replicationIdentifier w; pull := pull w; push
     := push w; live := live w; liveInterval := liveInterval w; retryTime :=
     retryTime w; canceled := canceled w; active := active w;
     initialReplicationComplete := initialReplicationComplete w;
     runQueueCount := v; runCount := runCount w; running := running w;
     queued := queued w; rejected := rejected w; subscribed := subscribed w;
     looping := looping w; destroyed := destroyed w; devMode := devMode w;
     primaryPath := primaryPath w; objects := objects w; timers := timers w;
     log := log w |}.

Definition set_runCount (v : Z) (w : World) : World :=
  {| replicationIdentifier := replicationIdentifier w; pull := pull w; push
     := push w; live := live w; liveInterval := liveInterval w; retryTime :=
     retryTime w; canceled := canceled w; active := active w;
     initialReplicationComplete := initialReplicationComplete w;
     runQueueCount := runQueueCount w; runCount := v; running := running w;
     queued := queued w; rejected := rejected w; subscribed := subscribed w;
     looping := looping w; destroyed := destroyed w; devMode := devMode w;
     primaryPath := primaryPath w; objects := objects w; timers := timers w;
     log := log w |}.

Definition set_running (v : option pc) (w : World) : World :=
  {| replicationIdentifier := replicationIdentifier w; pull := pull w; push
     := push w; live := live w; liveInterval := liveInterval w; retryTime :=
     retryTime w; canceled := canceled w; active := active w;
     initialReplicationComplete := initialReplicationComplete w;
     runQueueCount := runQueueCount w; runCount := runCount w; running := v;
     queued := queued w; rejected := rejected w; subscribed := subscribed w;
     looping := looping w; destroyed := destroyed w; devMode := devMode w;
     primaryPath := primaryPath w; objects := objects w; timers := timers w;
     log := log w |}.

Definition set_queued (v : list bool) (w : World) : World :=
  {| replicationIdentifier := replicationIdentifier w; pull := pull w; push
     := push w; live := live w; liveInterval := liveInterval w; retryTime :=
     retryTime w; canceled := canceled w; active := active w;
     initialReplicationComplete := initialReplicationComplete w;
     runQueueCount := runQueueCount w; runCount := runCount w; running :=
     running w; queued := v; rejected := rejected w; subscribed :=
     subscribed w; looping := looping w; destroyed := destroyed w; devMode
     := devMode w; primaryPath := primaryPath w; objects := objects w;
     timers := timers w; log := log w |}.

Definition set_rejected (v : bool) (w : World) : World :=
  {| replicationIdentifier := replicationIdentifier w; pull := pull w; push
     := push w; live := live w; liveInterval := liveInterval w; retryTime :=
     retryTime w; canceled := canceled w; active := active w;
     initialReplicationComplete := initialReplicationComplete w;
     runQueueCount := runQueueCount w; runCount := runCount w; running :=
     running w; queued := queued w; rejected := v; subscribed := subscribed
     w; looping := looping w; destroyed := destroyed w; devMode := devMode
     w; primaryPath := primaryPath w; objects := objects w; timers := timers
     w; log := log w |}.

Definition set_subscribed (v : bool) (w : World) : World :=
  {| replicationIdentifier := replicationIdentifier w; pull := pull w; push
     := push w; live := live w; liveInterval := liveInterval w; retryTime :=
     retryTime w; canceled := canceled w; active := active w;
     initialReplicationComplete := initialReplicationComplete w;
     runQueueCount := runQueueCount w; runCount := runCount w; running :=
     running w; queued := queued w; rejected := rejected w; subscribed := v;
     looping := looping w; destroyed := destroyed w; devMode := devMode w;
     primaryPath := primaryPath w; objects := objects w; timers := timers w;
     log := log w |}.

Definition set_looping (v : bool) (w : World) : World :=
  {| replicationIdentifier := replicationIdentifier w; pull := pull w; push
     := push w; live := live w; liveInterval := liveInterval w; retryTime :=
     retryTime w; canceled := canceled w; active := active w;
     initialReplicationComplete := initialReplicationComplete w;
     runQueueCount := runQueueCount w; runCount := runCount w; running :=
     running w; queued := queued w; rejected := rejected w; subscribed :=
     subscribed w; looping := v; destroyed := destroyed w; devMode :=
     devMode w; primaryPath := primaryPath w; objects := objects w; timers
     := timers w; log := log w |}.

Definition set_destroyed (v : bool) (w : World) : World :=
  {| replicationIdentifier := replicationIdentifier w; pull := pull w; push
     := push w; live := live w; liveInterval := liveInterval w; retryTime :=
     retryTime w; canceled := canceled w; active := active w;
     initialReplicationComplete := initialReplicationComplete w;
     runQueueCount := runQueueCount w; runCount := runCount w; running :=
     running w; queued := queued w; rejected := rejected w; subscribed :=
     subscribed w; looping := looping w; destroyed := v; devMode := devMode
     w; primaryPath := primaryPath w; objects := objects w; timers := timers
     w; log := log w |}.

Definition set_objects (v : heap) (w : World) : World :=
  {| replicationIdentifier := replicationIdentifier w; pull := pull w; push
     := push w; live := live w; liveInterval := liveInterval w; retryTime :=
     retryTime w; canceled := canceled w; active := active w;
     initialReplicationComplete := initialReplicationComplete w;
     runQueueCount := runQueueCount w; runCount := runCount w; running :=
     running w; queued := queued w; rejected := rejected w; subscribed :=
     subscribed w; looping := looping w; destroyed := destroyed w; devMode
     := devMode w; primaryPath := primaryPath w; objects := v; timers :=
     timers w; log := log w |}.

Definition set_timers (v : list Z) (w : World) : World :=
  {| replicationIdentifier := replicationIdentifier w; pull := pull w; push
     := push w; live := live w; liveInterval := liveInterval w; retryTime :=
     retryTime w; canceled := canceled w; active := active w;
     initialReplicationComplete := initialReplicationComplete w;
     runQueueCount := runQueueCount w; runCount := runCount w; running :=
     running w; queued := queued w; rejected := rejected w; subscribed :=
     subscribed w; looping := looping w; destroyed := destroyed w; devMode
     := devMode w; primaryPath := primaryPath w; objects := objects w;
     timers := v; log := log w |}.

Definition set_log (v : list event) (w : World) : World :=
  {| replicationIdentifier := replicationIdentifier w; pull := pull w; push
     := push w; live := live w; liveInterval := liveInterval w; retryTime :=
     retryTime w; canceled := canceled w; active := active w;
     initialReplicationComplete := initialReplicationComplete w;
     runQueueCount := runQueueCount w; runCount := runCount w; running :=
     running w; queued := queued w; rejected := rejected w; subscribed :=
     subscribed w; looping := looping w; destroyed := destroyed w; devMode
     := devMode w; primaryPath := primaryPath w; objects := objects w;
     timers := timers w; log := v |}.

Definition emit (e : event) (w : World) : World := set_log (log w ++ [e]) w.

(** [xs.forEach(x => subject.next(x))] *)
Definition emit_each (es : list event) (w : World) : World :=
  set_log (log w ++ es) w.

(** [subject.next(v)] for the three BehaviorSubjects: the value is stored and
    handed to the observers. *)
Definition next_canceled (v : bool) (w : World) : World :=
  emit (Canceled v) (set_canceled v w).

Definition next_active (v : bool) (w : World) : World :=
  emit (Active v) (set_active v w).

Definition next_initialReplicationComplete (v : bool) (w : World) : World :=
  emit (InitialReplicationComplete v) (set_initialReplicationComplete v w).

(** The running closure stops at an await. *)
Definition suspend (p : pc) (w : World) : World := set_running (Some p) w.

(** The running closure throws: the promise of the chain is rejected and
    nothing behind the throw is executed. *)
Definition throw (w : World) : World := set_rejected true (set_running None w).

(** ** RxReplicationStateBase *)

(** [isStopped()], lines 93-105. *)
Definition isStopped (w : World) : bool :=
  if destroyed w then true
  else if negb (live w) && initialReplicationComplete w then true
  else if canceled w then true
  else false.

(** [cancel()], lines 115-122.  The boolean is the value the returned promise
    resolves to. *)
Definition cancel (w : World) : World * bool :=
  if isStopped w then (w, false)
  else
    let w := if subscribed w then emit Unsubscribe (set_subscribed false w)
             else w in
    (next_canceled true w, true).

(** [run(retryOnFail)], lines 127-151: the synchronous part.  The closure is
    chained behind [runningPromise]; it starts in a later turn of the event
    loop ([closure] below). *)
Definition run (retryOnFail : bool) (w : World) : World :=
  if isStopped w then w
  else if (2 <? runQueueCount w)%Z then w
  else
    let w := set_runQueueCount (runQueueCount w + 1)%Z w in
    set_queued (queued w ++ [retryOnFail]) w.

(** [setTimeout(() => this.run(), this.retryTime)] *)
Definition setTimeout_run (w : World) : World :=
  emit (SetTimeout (retryTime w)) (set_timers (timers w ++ [retryTime w]) w).

(** The closure of [run] behind [await this._run(retryOnFail)], lines
    140-148; [willRetry] is what [_run] returned. *)
Definition closure_tail (retryOnFail willRetry : bool) (w : World) : World :=
  let w := next_active false w in
  let w :=
    if retryOnFail && negb willRetry
       && negb (initialReplicationComplete w)
    then next_initialReplicationComplete true w
    else w in
  let w := set_runQueueCount (runQueueCount w - 1)%Z w in
  set_running None w.

(** [_run] after [runPull()] has returned [ok], lines 188-194. *)
Definition _run_after_pull (retryOnFail ok : bool) (w : World) : World :=
  if negb ok && retryOnFail
  then closure_tail retryOnFail true (setTimeout_run w)
  else closure_tail retryOnFail false w.

(** An invocation of [runPull] returns [ok].  The caller of a recursive
    invocation ignores the value (line 270) and returns [true] itself. *)
Definition runPull_return (retryOnFail outer ok : bool) (w : World) : World :=
  _run_after_pull retryOnFail (if outer then ok else true) w.

(** [runPull()] up to its first await, lines 202-210. *)
Definition runPull (retryOnFail outer : bool) (w : World) : World :=
  let w := emit (Entered M_runPull) w in
  if negb (pull w) then throw w
  else if isStopped w then runPull_return retryOnFail outer false w
  else
    suspend (AtGetLastPullDocument retryOnFail outer)
      (emit (GetLastPullDocument (replicationIdentifier w)) w).

(** [_run] from line 186 on. *)
Definition _run_pull (retryOnFail : bool) (w : World) : World :=
  if pull w then runPull retryOnFail true w
  else closure_tail retryOnFail false w.

(** [_run] after [runPush()] has returned [ok], lines 175-184. *)
Definition _run_after_push (retryOnFail ok : bool) (w : World) : World :=
  if negb ok && retryOnFail
  then closure_tail retryOnFail true (setTimeout_run w)
  else _run_pull retryOnFail w.

(** An invocation of [runPush] returns [ok]; a recursive invocation returns
    to line 367, whose caller returns [true]. *)
Definition runPush_return (retryOnFail outer ok : bool) (w : World) : World :=
  _run_after_push retryOnFail (if outer then ok else true) w.

(** [this.push.batchSize ? this.push.batchSize : 5], line 327.  An absent
    [batchSize] and [0] are falsy. *)
Definition batchSize_or_default (p : ReplicationPushOptions) : Z :=
  match batchSize p with
  | Some b => if (b =? 0)%Z then 5%Z else b
  | None => 5%Z
  end.

(** [runPush()] up to its first await, lines 322-332. *)
Definition runPush (retryOnFail outer : bool) (w : World) : World :=
  let w := emit (Entered M_runPush) w in
  match push w with
  | None => throw w
  | Some p =>
      suspend (AtGetChanges retryOnFail outer)
        (emit (GetChangesSinceLastPushSequence (replicationIdentifier w)
                 (batchSize_or_default p)) w)
  end.

(** [_run] from line 173 on. *)
Definition _run_push (retryOnFail : bool) (w : World) : World :=
  match push w with
  | Some _ => runPush retryOnFail true w
  | None => _run_pull retryOnFail w
  end.

(** [_run(retryOnFail)] up to its first await, lines 159-173. *)
Definition _run (retryOnFail : bool) (w : World) : World :=
  let w := emit (Entered M_run) (set_runCount (runCount w + 1)%Z w) in
  if initialReplicationComplete w
  then suspend (AtRequestIdlePromise retryOnFail) (emit RequestIdlePromise w)
  else _run_push retryOnFail w.

(** The closure chained by [run], from its start to its first await, lines
    137-139. *)
Definition closure (retryOnFail : bool) (w : World) : World :=
  _run retryOnFail (next_active true w).

(** [xs.map(f)] for an [f] that allocates: the heap is threaded through. *)
Fixpoint map_alloc {A} (f : heap -> A -> heap * loc) (h : heap) (xs : list A)
  : heap * list loc :=
  match xs with
  | [] => (h, [])
  | x :: xs =>
      let '(h, d) := f h x in
      let '(h, ds) := map_alloc f h xs in
      (h, d :: ds)
  end.

(** The callback of [.map] in [runPush], lines 336-348. *)
Definition toPushDoc (h : heap) (row : PushChangeRow) : heap * loc :=
  let '(h, doc) := flatClone h (row_doc row) in
  let h := if hasOwnProperty h doc "_deleted" then h
           else set_prop h doc "_deleted" (JBool false) in
  let h := delete_prop h doc "_rev" in
  let h := delete_prop h doc "_attachments" in
  (h, doc).

(** [runPush] once the change collector has answered, lines 334-351. *)
Definition runPush_collected (retryOnFail outer : bool)
    (changesResult : ChangesResult) (w : World) : World :=
  let '(h, pushDocs) :=
    map_alloc toPushDoc (objects w) (snd <$> changedDocs changesResult) in
  suspend (AtPushHandler retryOnFail outer changesResult pushDocs)
    (emit (PushHandler pushDocs) (set_objects h w)).

(** [runPush] when [push.handler] has thrown, lines 352-355. *)
Definition runPush_caught (retryOnFail outer : bool) (err : string)
    (w : World) : World :=
  runPush_return retryOnFail outer false (emit (Error err) w).

(** [runPush] when [push.handler] has resolved, lines 357-363. *)
Definition runPush_pushed (retryOnFail outer : bool)
    (changesResult : ChangesResult) (pushDocs : list loc) (w : World)
  : World :=
  let w := emit_each (Send <$> pushDocs) w in
  suspend (AtSetLastPushSequence retryOnFail outer changesResult)
    (emit (SetLastPushSequence (replicationIdentifier w)
             (lastSequence changesResult)) w).

(** [runPush] once the checkpoint is persisted, lines 365-370. *)
Definition runPush_persisted (retryOnFail outer : bool)
    (changesResult : ChangesResult) (w : World) : World :=
  if negb (length (changedDocs changesResult) =? 0)
  then runPush retryOnFail false w
  else runPush_return retryOnFail outer true w.

Section WithCollaborators.
Context `{Collaborators}.

(** [runPull] once the checkpoint store has answered, lines 212-215. *)
Definition runPull_loaded (retryOnFail outer : bool)
    (latestDocument : option loc) (w : World) : World :=
  suspend (AtPullHandler retryOnFail outer)
    (emit (PullHandler latestDocument) w).

(** [runPull] when [pull.handler] has thrown, lines 216-219. *)
Definition runPull_caught (retryOnFail outer : bool) (err : string)
    (w : World) : World :=
  runPull_return retryOnFail outer false (emit (Error err) w).

(** The dev-mode validation, lines 233-237: the error thrown for the first
    document that does not validate.  The clone made for the validation is
    dropped at once and is not entered into the heap. *)
Definition validate_pulled (h : heap) (pulledDocuments : list loc)
  : option string :=
  head (omap (fun doc => schema_validate (delete "_deleted" (heap_get h doc)))
          pulledDocuments).

(** [handleDocumentsFromRemote(docs)] up to its await, lines 280-282. *)
Definition handleDocumentsFromRemote (retryOnFail outer : bool)
    (result : ReplicationPullHandlerResult) (w : World) : World :=
  let w := emit (Entered M_handleDocumentsFromRemote) w in
  let docIds :=
    (fun doc => heap_get (objects w) doc !! primaryPath w)
      <$> documents result in
  suspend (AtFindDocumentsById retryOnFail outer result)
    (emit (FindDocumentsById docIds) w).

(** [docsFromLocal.get(documentId)]: the keys of the map are strings. *)
Definition docsFromLocal_get (docsFromLocal : gmap string RxDocumentData)
    (documentId : option json) : option RxDocumentData :=
  match documentId with
  | Some (JStr id) => docsFromLocal !! id
  | _ => None
  end.

(** The body of the loop of [handleDocumentsFromRemote], lines 285-302. *)
Definition tagPulledDocument (identifier path : string)
    (docsFromLocal : gmap string RxDocumentData)
    (h : heap) (originalDoc : loc) : heap * loc :=
  let '(h, doc) := flatClone h originalDoc in
  let documentId := heap_get h doc !! path in
  let docStateInLocalStorageInstance :=
    docsFromLocal_get docsFromLocal documentId in
  let newRevision :=
    createRevisionForPulledDocument identifier (heap_get h doc) in
  let newRevision :=
    match docStateInLocalStorageInstance with
    | Some local =>
        let hasHeight := getHeightOfRevision (doc_rev local) in
        let newRevisionHeight := (hasHeight + 1)%Z in
        pretty newRevisionHeight +:+ "-" +:+ newRevision
    | None => "1-" +:+ newRevision
    end in
  (set_prop h doc "_rev" (JStr newRevision), doc).

(** [runPull] once the pulled documents are written, lines 248-263. *)
Definition runPull_written (retryOnFail outer : bool)
    (result : ReplicationPullHandlerResult) (w : World) : World :=
  let pulledDocuments := documents result in
  let w := emit_each (Received <$> pulledDocuments) w in
  match lastOfArray pulledDocuments with
  | None => runPull_return retryOnFail outer true w
  | Some newLatestDocument =>
      suspend (AtSetLastPullDocument retryOnFail outer result)
        (emit (SetLastPullDocument (replicationIdentifier w)
                 newLatestDocument) w)
  end.

(** [handleDocumentsFromRemote] once the local versions are fetched, lines
    284-313.  [lockedRun] and [bulkAddRevisions] are one await. *)
Definition handleDocumentsFromRemote_found (retryOnFail outer : bool)
    (result : ReplicationPullHandlerResult)
    (docsFromLocal : gmap string RxDocumentData) (w : World) : World :=
  let '(h, toStorageDocs) :=
    map_alloc
      (tagPulledDocument (replicationIdentifier w) (primaryPath w)
         docsFromLocal)
      (objects w) (documents result) in
  let w := set_objects h w in
  if 0 <? length toStorageDocs
  then
    suspend (AtBulkAddRevisions retryOnFail outer result)
      (emit (BulkAddRevisions
               ((fun doc => _handleToStorageInstance (heap_get h doc))
                  <$> toStorageDocs)) w)
  else runPull_written retryOnFail outer result w.

(** [runPull] when [pull.handler] has resolved, lines 221-247. *)
Definition runPull_pulled (retryOnFail outer : bool)
    (result : ReplicationPullHandlerResult) (w : World) : World :=
  let pulledDocuments := documents result in
  if length pulledDocuments =? 0
  then runPull_return retryOnFail outer true w
  else
    match (if devMode w then validate_pulled (objects w) pulledDocuments
           else None) with
    | Some err => runPull_return retryOnFail outer false (emit (Error err) w)
    | None =>
        if isStopped w then runPull_return retryOnFail outer true w
        else handleDocumentsFromRemote retryOnFail outer result w
    end.

(** [runPull] once the checkpoint is persisted, lines 265-274. *)
Definition runPull_persisted (retryOnFail outer : bool)
    (result : ReplicationPullHandlerResult) (w : World) : World :=
  if hasMoreDocuments result
  then runPull retryOnFail false w
  else runPull_return retryOnFail outer true w.

(** The suspended closure goes on when the promise it awaits settles.  The
    handlers are called inside [try]; a rejection of any other promise is
    thrown out of the closure.  [None]: the promise awaited at [p] does not
    settle that way. *)
Definition resume (p : pc) (r : response) (w : World) : option World :=
  match p, r with
  | AtRequestIdlePromise retryOnFail, Resolved =>
      Some (_run_push retryOnFail w)
  | AtGetChanges retryOnFail outer, ResolvedChanges changesResult =>
      Some (runPush_collected retryOnFail outer changesResult w)
  | AtPushHandler retryOnFail outer changesResult pushDocs, Resolved =>
      Some (runPush_pushed retryOnFail outer changesResult pushDocs w)
  | AtPushHandler retryOnFail outer _ _, Rejected err =>
      Some (runPush_caught retryOnFail outer err w)
  | AtSetLastPushSequence retryOnFail outer changesResult, Resolved =>
      Some (runPush_persisted retryOnFail outer changesResult w)
  | AtGetLastPullDocument retryOnFail outer,
    ResolvedLastPullDocument latestDocument =>
      Some (runPull_loaded retryOnFail outer latestDocument w)
  | AtPullHandler retryOnFail outer, ResolvedPull result =>
      Some (runPull_pulled retryOnFail outer result w)
  | AtPullHandler retryOnFail outer, Rejected err =>
      Some (runPull_caught retryOnFail outer err w)
  | AtFindDocumentsById retryOnFail outer result,
    ResolvedFound docsFromLocal =>
      Some (handleDocumentsFromRemote_found retryOnFail outer result
              docsFromLocal w)
  | AtBulkAddRevisions retryOnFail outer result, Resolved =>
      Some (runPull_written retryOnFail outer result w)
  | AtSetLastPullDocument retryOnFail outer result, Resolved =>
      Some (runPull_persisted retryOnFail outer result w)
  | (AtGetChanges _ _ | AtSetLastPushSequence _ _ _
     | AtGetLastPullDocument _ _ | AtFindDocumentsById _ _ _
     | AtBulkAddRevisions _ _ _ | AtSetLastPullDocument _ _ _),
    Rejected _ =>
      Some (throw w)
  | _, _ => None
  end.

(** ** replicateRxCollection *)

(** The subscriber of the change stream, lines 435-450: [Some retryOnFail]
    when it calls [replicationState.run(retryOnFail)], [None] when it returns
    without calling it.  [rev && ..]: an absent [_rev] and the empty string
    are falsy; [_rev] is typed as a string. *)
Definition changeEventSubscriber (cE : RxChangeEvent) (w : World)
  : option bool :=
  if isStopped w then None
  else
    let doc := getDocumentDataOfRxChangeEvent cE in
    match doc !! "_rev" with
    | Some (JStr rev) =>
        if negb (String.eqb rev EmptyString)
           && negb (wasRevisionfromPullReplication
                      (replicationIdentifier w) rev)
        then Some true
        else None
    | _ => None
    end.

(** The collection emits [cE]: the subscription passes it through
    [filter(cE => !cE.isLocal)] to the subscriber. *)
Definition onChangeEvent (cE : RxChangeEvent) (w : World) : World :=
  if negb (isLocal cE) then
    match changeEventSubscriber cE w with
    | Some retryOnFail => run retryOnFail w
    | None => w
    end
  else w.

(** One pass of the interval loop, lines 413-423, when
    [promiseWait(liveInterval)] resolves.  The test of [while] after
    [run(false)] is the same test as the one behind the next wait. *)
Definition onInterval (w : World) : World :=
  if isStopped w then set_looping false w
  else run false w.

(** [replicateRxCollection(options)], lines 375-456.  [multiInstance] is
    [collection.database.multiInstance]; [isDestroyed] is
    [collection.destroyed] and [h] the heap of documents when the state is
    constructed, that is behind the wait for leadership where there is one.
    The call of [waitForLeadership()] is the first event of the log.  The
    interval loop starts with the test of [while]: it waits only in a state
    that is not stopped. *)
Definition replicateRxCollection (o : ReplicationOptions)
    (multiInstance isDestroyed dev : bool) (path : string) (h : heap)
  : World :=
  let replicationState :=
    {| replicationIdentifier := opt_replicationIdentifier o;
       pull := opt_pull o;
       push := opt_push o;
       live := default false (opt_live o);
       liveInterval := default (1000 * 10)%Z (opt_liveInterval o);
       retryTime := default (1000 * 5)%Z (opt_retryTime o);
       canceled := false; active := false;
       initialReplicationComplete := false;
       runQueueCount := 0; runCount := 0;
       running := None; queued := []; rejected := false;
       subscribed := false; looping := false;
       destroyed := isDestroyed; devMode := dev; primaryPath := path;
       objects := h; timers := [];
       log := if opt_waitForLeadership o && multiInstance
              then [WaitForLeadership] else [] |} in
  let w := run true replicationState in
  if live w then
    let w := if pull w && negb (isStopped w) then set_looping true w
             else w in
    match push w with
    | Some _ => set_subscribed true w
    | None => w
    end
  else w.

(** ** The event loop *)

(** What can happen next. *)
Inductive label :=
| CallRun (retryOnFail : bool)        (* some caller invokes [run] *)
| CallCancel                          (* some caller invokes [cancel] *)
| CollectionDestroyed                 (* [collection.destroyed] is set *)
| ChangeEvent (cE : RxChangeEvent)    (* [collection.$] emits *)
| TimerFires                          (* a timer set by [_run] fires *)
| IntervalElapsed                     (* the wait of the interval loop ends *)
| ClosureStarts                       (* the next closure of the chain *)
| Settles (r : response).             (* the awaited promise settles *)

(** One turn of the event loop; [None] when the turn cannot happen in [w].
    The destruction of the collection sets its flag; the callback registered
    on [onDestroy] (line 79) is a call of [cancel], in a turn of its own. *)
Definition step (l : label) (w : World) : option World :=
  match l with
  | CallRun retryOnFail => Some (run retryOnFail w)
  | CallCancel => Some (fst (cancel w))
  | CollectionDestroyed =>
      if destroyed w then None else Some (set_destroyed true w)
  | ChangeEvent cE =>
      if subscribed w then Some (onChangeEvent cE w) else None
  | TimerFires =>
      match timers w with
      | _ :: rest => Some (run true (set_timers rest w))
      | [] => None
      end
  | IntervalElapsed =>
      if looping w then Some (onInterval w) else None
  | ClosureStarts =>
      match running w, queued w with
      | None, retryOnFail :: rest =>
          if rejected w then None
          else Some (closure retryOnFail (set_queued rest w))
      | _, _ => None
      end
  | Settles r =>
      match running w with
      | Some p => resume p r w
      | None => None
      end
  end.

(** A schedule is a list of turns. *)
Fixpoint steps (ls : list label) (w : World) : option World :=
  match ls with
  | [] => Some w
  | l :: ls =>
      match step l w with
      | Some w' => steps ls w'
      | None => None
      end
  end.

(** The states the replication can be in: those a schedule leads to from
    the state [replicateRxCollection] returns. *)
Definition reachable (w : World) : Prop :=
  exists o multiInstance isDestroyed dev path h ls,
    steps ls (replicateRxCollection o multiInstance isDestroyed dev path h)
    = Some w.

End WithCollaborators.

(** ** The revision of a pulled document, as the specification words it

    [(existingHeight + 1) + '-' + hash] when the local storage has a version
    of the document, ['1-' + hash] otherwise, where [hash] is
    [createRevisionForPulledDocument(identifier, doc)].  Compared with
    [tagPulledDocument] in the properties below. *)
Section PulledRevision.
Context `{Collaborators}.

Definition pulled_revision_spec (identifier path : string)
    (docsFromLocal : gmap string RxDocumentData) (doc : obj) : string :=
  let hash := createRevisionForPulledDocument identifier doc in
  match docsFromLocal_get docsFromLocal (doc !! path) with
  | Some existing =>
      pretty (getHeightOfRevision (doc_rev existing) + 1)%Z +:+ "-" +:+ hash
  | None => "1-" +:+ hash
  end.

(** The pulled document with the revision of the specification. *)
Definition tagged_spec (identifier path : string)
    (docsFromLocal : gmap string RxDocumentData) (doc : obj) : obj :=
  <["_rev" := JStr (pulled_revision_spec identifier path docsFromLocal doc)]>
    doc.

End PulledRevision.

(** ** A concrete setting

    An instance of the collaborators and some documents, used to run the
    definitions above on concrete inputs. *)
Module Demo.

(** [s] ends with [tag]. *)
Definition endsWith (s tag : string) : bool :=
  String.eqb
    (String.substring (String.length s - String.length tag)
       (String.length tag) s)
    tag.

(** The revision height is the number in front of the first dash; the demo
    reads one digit. *)
Definition height (rev : string) : Z :=
  match rev with
  | String c _ => (Z.of_nat (Ascii.nat_of_ascii c) - 48)%Z
  | EmptyString => 0%Z
  end.

Definition collaborators : Collaborators :=
  {| wasRevisionfromPullReplication identifier rev :=
       endsWith rev ("pull" +:+ identifier);
     createRevisionForPulledDocument identifier doc :=
       "pull" +:+ identifier;
     getHeightOfRevision := height;
     _handleToStorageInstance doc := doc;
     schema_validate doc :=
       match doc !! "id" with
       | Some (JStr _) => None
       | _ => Some "VD2"
       end |}.

Definition options (withPull : bool) (withPush : option ReplicationPushOptions)
    (isLive : bool) : ReplicationOptions :=
  {| opt_replicationIdentifier := "rep";
     opt_pull := withPull;
     opt_push := withPush;
     opt_live := Some isLive;
     opt_liveInterval := Some 1000%Z;
     opt_retryTime := Some 60000%Z;
     opt_waitForLeadership := false |}.

Definition alice : obj := {[ "id" := JStr "alice"; "age" := JNum 30 ]}.
Definition bob : obj := {[ "id" := JStr "bob"; "_deleted" := JBool true ]}.

(** Locations 0 and 1 hold the two documents. *)
Definition documents_heap : heap := [alice; bob].

Definition start (withPull : bool) (withPush : option ReplicationPushOptions)
    (isLive : bool) : World :=
  replicateRxCollection (options withPull withPush isLive) false false false
    "id" documents_heap.

Definition localWrite : RxChangeEvent :=
  {| isLocal := false;
     documentData := {[ "id" := JStr "alice"; "_rev" := JStr "2-f00" ]} |}.

Definition pushOptions : option ReplicationPushOptions :=
  Some {| batchSize := None |}.

(** The state a schedule leads to. *)
Definition after (ls : list label) (w : World) : World :=
  default w (@steps collaborators ls w).

(** Answers of the collaborators. *)
Definition no_lastPullDocument : label :=
  Settles (ResolvedLastPullDocument None).

Definition nothing_pulled : label :=
  Settles (ResolvedPull {| documents := []; hasMoreDocuments := false |}).

Definition both_pulled : ReplicationPullHandlerResult :=
  {| documents := [0; 1]; hasMoreDocuments := false |}.

Definition alice_changed : ChangesResult :=
  {| changedDocs := [("alice", {| row_doc := 0; row_sequence := 7 |})];
     lastSequence := 7 |}.

Definition nothing_changed : ChangesResult :=
  {| changedDocs := []; lastSequence := 7 |}.

(** The local storage has a version of alice, at height 4. *)
Definition alice_stored : gmap string RxDocumentData :=
  {[ "alice" := {| doc_rev := "4-c0ffee"; doc_data := alice |} ]}.

(** A live replication with push only, its collection destroyed. *)
Definition destroyed_live_push : World :=
  after [CollectionDestroyed] (start false pushOptions true).

(** A one-shot pull whose first cycle awaits the checkpoint, then the
    handler. *)
Definition pull_awaits_handler : World :=
  after [ClosureStarts; no_lastPullDocument] (start true None false).

(** A live pull: the first cycle fails and sets the retry timer, then the
    interval loop runs a cycle that pulls nothing. *)
Definition interval_schedule : list label :=
  [ClosureStarts; no_lastPullDocument; Settles (Rejected "offline");
   IntervalElapsed; ClosureStarts; no_lastPullDocument; nothing_pulled].

(** A live pull whose first cycle is in flight. *)
Definition pull_in_flight : World :=
  after [ClosureStarts] (start true None true).

Definition burst : list bool := [true; true; true].

(** The cycle in flight and the chained ones run to their end; nobody calls
    [run()]. *)
Definition drain : list label :=
  [no_lastPullDocument; nothing_pulled;
   ClosureStarts; Settles Resolved; no_lastPullDocument; nothing_pulled;
   ClosureStarts; Settles Resolved; no_lastPullDocument; nothing_pulled].

(** A live push that is canceled while [push.handler] is in flight. *)
Definition canceled_during_push : World :=
  after [ClosureStarts; Settles (ResolvedChanges alice_changed); CallCancel]
    (start false pushOptions true).

(** The handler resolves and the push goes on to its end. *)
Definition push_completes : list label :=
  [Settles Resolved; Settles Resolved;
   Settles (ResolvedChanges nothing_changed); Settles Resolved;
   Settles Resolved].

(** A one-shot replication whose first cycle awaits [push.handler]. *)
Definition push_awaits_handler : World :=
  after [ClosureStarts; Settles (ResolvedChanges alice_changed)]
    (start true pushOptions false).

End Demo.

(** ** What the running closure can change

    Between two awaits the closure appends events, sets timers and
    allocates objects; it ends suspended at the next await, or finished (the
    tail of the closure has run), or thrown. *)
Inductive ending :=
| Suspended (p : pc)
| Finished (completes : bool)
| Thrown.

(** Events of the body of a cycle: everything but the three BehaviorSubjects
    and the subscriptions. *)
Definition of_body (e : event) : bool :=
  match e with
  | Canceled _ | Active _ | InitialReplicationComplete _ | Unsubscribe =>
      false
  | _ => true
  end.

Definition tail_events (e : ending) : list event :=
  match e with
  | Finished completes =>
      Active false
      :: (if completes then [InitialReplicationComplete true] else [])
  | _ => []
  end.

Record continues (e : ending) (w w' : World) : Prop := {
  cont_identifier : replicationIdentifier w' = replicationIdentifier w;
  cont_pull : pull w' = pull w;
  cont_push : push w' = push w;
  cont_live : live w' = live w;
  cont_liveInterval : liveInterval w' = liveInterval w;
  cont_retryTime : retryTime w' = retryTime w;
  cont_canceled : canceled w' = canceled w;
  cont_queued : queued w' = queued w;
  cont_subscribed : subscribed w' = subscribed w;
  cont_looping : looping w' = looping w;
  cont_destroyed : destroyed w' = destroyed w;
  cont_devMode : devMode w' = devMode w;
  cont_primaryPath : primaryPath w' = primaryPath w;
  cont_runCount : runCount w' = runCount w;
  cont_log : exists body,
      forallb of_body body = true
      /\ log w' = log w ++ body ++ tail_events e;
  cont_timers : exists ts, timers w' = timers w ++ ts;
  cont_running :
    running w' = match e with Suspended p => Some p | _ => None end;
  cont_runQueueCount :
    runQueueCount w'
    = match e with
      | Finished _ => (runQueueCount w - 1)%Z
      | _ => runQueueCount w
      end;
  cont_active :
    active w' = match e with Finished _ => false | _ => active w end;
  cont_initial :
    initialReplicationComplete w'
    = match e with
      | Finished completes => completes || initialReplicationComplete w
      | _ => initialReplicationComplete w
      end;
  cont_completes :
    e = Finished true -> initialReplicationComplete w = false;
  cont_rejected :
    rejected w' = match e with Thrown => true | _ => rejected w end
}.

(** The closure has gone on without reaching an await or its end: events of
    the body, timers and objects were added, nothing else has changed. *)
Record proceeds (w w' : World) : Prop := {
  pro_identifier : replicationIdentifier w' = replicationIdentifier w;
  pro_pull : pull w' = pull w;
  pro_push : push w' = push w;
  pro_live : live w' = live w;
  pro_liveInterval : liveInterval w' = liveInterval w;
  pro_retryTime : retryTime w' = retryTime w;
  pro_canceled : canceled w' = canceled w;
  pro_queued : queued w' = queued w;
  pro_subscribed : subscribed w' = subscribed w;
  pro_looping : looping w' = looping w;
  pro_destroyed : destroyed w' = destroyed w;
  pro_devMode : devMode w' = devMode w;
  pro_primaryPath : primaryPath w' = primaryPath w;
  pro_runCount : runCount w' = runCount w;
  pro_log : exists body,
      forallb of_body body = true /\ log w' = log w ++ body;
  pro_timers : exists ts, timers w' = timers w ++ ts;
  pro_running : running w' = running w;
  pro_runQueueCount : runQueueCount w' = runQueueCount w;
  pro_active : active w' = active w;
  pro_initial : initialReplicationComplete w' = initialReplicationComplete w;
  pro_rejected : rejected w' = rejected w
}.

(** The [retryOnFail] of the cycle a frame belongs to. *)
Definition retryOnFail_of (p : pc) : bool :=
  match p with
  | AtRequestIdlePromise r | AtGetChanges r _ | AtPushHandler r _ _ _
  | AtSetLastPushSequence r _ _ | AtGetLastPullDocument r _
  | AtPullHandler r _ | AtFindDocumentsById r _ _
  | AtBulkAddRevisions r _ _ | AtSetLastPullDocument r _ _ => r
  end.

(** An ending of a cycle run with [retryOnFail]: a frame of the same cycle,
    and the initial replication is completed by such a cycle only. *)
Definition ends_for (retryOnFail : bool) (e : ending) : Prop :=
  match e with
  | Suspended p => retryOnFail_of p = retryOnFail
  | Finished completes => completes = true -> retryOnFail = true
  | Thrown => True
  end.

(** The closure of a cycle run with [retryOnFail] reaches some ending. *)
Definition goes_on (retryOnFail : bool) (w w' : World) : Prop :=
  exists e, continues e w w' /\ ends_for retryOnFail e.

(** ** The invariant of the replication state *)

(** The closures of the chain that have not finished: the one that is
    executing and the ones behind it. *)
Definition pending (w : World) : Z :=
  (match running w with Some _ => 1 | None => 0 end
   + Z.of_nat (length (queued w)))%Z.

(** Values pushed into [initialReplicationComplete] and into [canceled]. *)
Definition on_initialReplicationComplete (e : event) : bool :=
  match e with InitialReplicationComplete _ => true | _ => false end.

Definition on_canceled (e : event) : bool :=
  match e with Canceled _ => true | _ => false end.

Record invariant (w : World) : Prop := {
  (* a closure that has thrown is never taken off the counter *)
  inv_count :
    runQueueCount w = (pending w + (if rejected w then 1 else 0))%Z;
  inv_bound : (runQueueCount w <= 3)%Z;
  inv_active : active w = bool_decide (is_Some (running w)) || rejected w;
  inv_running : is_Some (running w) -> rejected w = false;
  inv_initial :
    List.filter on_initialReplicationComplete (log w)
    = if initialReplicationComplete w
      then [InitialReplicationComplete true] else [];
  inv_canceled :
    List.filter on_canceled (log w)
    = if canceled w then [Canceled true] else [];
  inv_subscribed : subscribed w = true -> live w = true /\ is_Some (push w)
}.

(** The same while a closure is executing between two awaits, when
    [running] does not tell. *)
Record invariant_executing (w : World) : Prop := {
  exe_count : runQueueCount w = (1 + Z.of_nat (length (queued w)))%Z;
  exe_bound : (runQueueCount w <= 3)%Z;
  exe_active : active w = true;
  exe_rejected : rejected w = false;
  exe_initial :
    List.filter on_initialReplicationComplete (log w)
    = if initialReplicationComplete w
      then [InitialReplicationComplete true] else [];
  exe_canceled :
    List.filter on_canceled (log w)
    = if canceled w then [Canceled true] else [];
  exe_subscribed : subscribed w = true -> live w = true /\ is_Some (push w)
}.

(** The [retryOnFail] of the cycle whose closure executes in the turn [l]:
    the closure that starts, or the one whose await settles. *)
Definition cycle_of_step (l : label) (w : World) : option bool :=
  match l with
  | ClosureStarts => head (queued w)
  | Settles _ => retryOnFail_of <$> running w
  | _ => None
  end.

(** Turns of the event loop in which no caller enters the replication
    state: the chain of closures advances on its own. *)
Definition internal (l : label) : bool :=
  match l with
  | ClosureStarts | Settles _ => true
  | _ => false
  end.

Definition is_ClosureStarts (l : label) : bool :=
  match l with ClosureStarts => true | _ => false end.

(** Events of the push of a batch. *)
Definition of_push (e : event) : bool :=
  match e with
  | Send _ | SetLastPushSequence _ _ | PushHandler _ => true
  | _ => false
  end.

(** The turns of a cycle whose first call of [push.handler] throws: the
    closure starts, waits to be idle when the initial replication is
    complete, receives the changes and the handler rejects. *)
Definition failing_push_turns (awaitsIdle : bool)
    (changesResult : ChangesResult) (err : string) : list label :=
  ClosureStarts
  :: (if awaitsIdle then [Settles Resolved] else [])
  ++ [Settles (ResolvedChanges changesResult); Settles (Rejected err)].

(** ** Further notions for the properties of the cycle *)

(** The document [runPush] sends for a local document, lines 336-348:
    [_deleted] as it is, or [false] when the document has none; no [_rev],
    no [_attachments]. *)
Definition wire_doc (doc : obj) : obj :=
  let doc :=
    match doc !! "_deleted" with
    | Some _ => doc
    | None => <["_deleted" := JBool false]> doc
    end in
  delete "_attachments" (delete "_rev" doc).

(** What a pull does to the storage, the checkpoint and [received$]. *)
Definition of_pull_effect (e : event) : bool :=
  match e with
  | Received _ | FindDocumentsById _ | BulkAddRevisions _
  | SetLastPullDocument _ _ => true
  | _ => false
  end.

(** Values pushed into [active]. *)
Definition on_active (e : event) : bool :=
  match e with Active _ => true | _ => false end.

(** [n] cycles that have started and ended. *)
Fixpoint cycles_done (n : nat) : list event :=
  match n with
  | 0 => []
  | S n => Active true :: Active false :: cycles_done n
  end.

(** What the closure appends behind the failure of a pull: the retry timer
    when the failing invocation is the one [_run] called and the cycle
    retries, the end of the cycle, and the completion of the initial
    replication when [_run] returns [false]. *)
Definition after_failed_pull (retryOnFail outer : bool) (w : World)
  : list event :=
  (if outer && retryOnFail then [SetTimeout (retryTime w)] else [])
  ++ [Active false]
  ++ (if retryOnFail && negb outer && negb (initialReplicationComplete w)
      then [InitialReplicationComplete true] else []).

(** The values pushed into [active] so far are [n] finished cycles and the
    start of the one that executes, and [runCount] counts them. *)
Definition alternates (w : World) : Prop :=
  exists n,
    List.filter on_active (log w)
    = cycles_done n ++ (if active w then [Active true] else [])
    /\ runCount w = (Z.of_nat n + (if active w then 1 else 0))%Z.

(** The state [replicateRxCollection] returns for the options [o] and a
    collection that is destroyed or not. *)
Record started (o : ReplicationOptions) (multiInstance isDestroyed : bool)
    (w : World) : Prop := {
  start_identifier : replicationIdentifier w = opt_replicationIdentifier o;
  start_pull : pull w = opt_pull o;
  start_push : push w = opt_push o;
  start_live : live w = default false (opt_live o);
  start_liveInterval : liveInterval w = default 10000%Z (opt_liveInterval o);
  start_retryTime : retryTime w = default 5000%Z (opt_retryTime o);
  start_destroyed : destroyed w = isDestroyed;
  start_canceled : canceled w = false;
  start_active : active w = false;
  start_initial : initialReplicationComplete w = false;
  start_isStopped : isStopped w = isDestroyed;
  start_runCount : runCount w = 0%Z;
  start_running : running w = None;
  start_rejected : rejected w = false;
  start_timers : timers w = [];
  start_queued : queued w = if isDestroyed then [] else [true];
  start_runQueueCount : runQueueCount w = if isDestroyed then 0%Z else 1%Z;
  start_log :
    log w
    = if opt_waitForLeadership o && multiInstance then [WaitForLeadership]
      else [];
  start_looping :
    looping w = default false (opt_live o) && opt_pull o && negb isDestroyed;
  start_subscribed :
    subscribed w
    = default false (opt_live o) && bool_decide (is_Some (opt_push o))
}.

(** The arguments of the constructor are the same in [w'] as in [w]. *)
Definition same_options (w w' : World) : Prop :=
  replicationIdentifier w' = replicationIdentifier w
  /\ pull w' = pull w
  /\ push w' = push w
  /\ live w' = live w
  /\ liveInterval w' = liveInterval w
  /\ retryTime w' = retryTime w.

(** ** util.js

    The pure helpers of [dist/es/util.js] that work on numbers and strings.
    A JavaScript string is the list of its UTF-16 code units (for
    [charCodeAt]) or the list of its characters. *)
Module Util.
Import Stdlib.Strings.Ascii.

(** [ToInt32]: the signed 32-bit integer congruent to [z]; this is what
    [z | 0] and the operands and the result of [<<] are. *)
Definition to_int32 (z : Z) : Z := ((z + 2 ^ 31) mod 2 ^ 32 - 2 ^ 31)%Z.

(** One pass of the loop of [fastUnsecureHash], lines 63-65:
    [hash = (hash << 5) - hash + chr; hash |= 0]. *)
Definition hash_step (hash chr : Z) : Z :=
  to_int32 (to_int32 (Z.shiftl (to_int32 hash) 5) - hash + chr)%Z.

(** [fastUnsecureHash(obj)] for a string [obj], lines 55-69; [obj] is given
    by its code units. *)
Definition fastUnsecureHash (obj : list Z) : Z :=
  if length obj =? 0 then 0%Z
  else
    let hash := foldl hash_step 0%Z obj in
    if (hash <? 0)%Z then (hash * -1)%Z else hash.

(** The polynomial of the code units in 31, by Horner's rule. *)
Definition horner31 (obj : list Z) : Z :=
  foldl (fun acc chr => (31 * acc + chr)%Z) 0%Z obj.

Definition base58Chars : string :=
  "abcdefghijkmnopqrstuvwxyzABCDEFGHJKLMNPQRSTUVWXYZ123456789".

Definition base58Length : N := N.of_nat (String.length base58Chars).

(** *** Numbers

    A JavaScript number is an IEEE 754 double: 53 bits of significand, and
    the result of an arithmetic operation is the double nearest to the exact
    result, a tie going to the even significand.  [numberToLetter] works on
    numbers whose values are natural numbers; such a number is given by its
    value.  Every natural number up to [MAX_SAFE_INTEGER] is a double. *)
Definition MAX_SAFE_INTEGER : N := (2 ^ 53 - 1)%N.

(** The integer nearest to [a / b], a tie going to the even one. *)
Definition round_half_even (a b : N) : N :=
  let q := (a / b)%N in
  let r := (a mod b)%N in
  if (2 * r <? b)%N then q
  else if (b <? 2 * r)%N then (q + 1)%N
  else if N.even q then q else (q + 1)%N.

(** A double that is not negative: the significand [m] and the exponent
    [e] of the value [m * 2 ^ e]. *)
Definition double : Type := N * Z.

(** [a / (b * 2 ^ e)] as a fraction of natural numbers. *)
Definition scaled (a b : N) (e : Z) : N * N :=
  if (e <? 0)%Z then ((a * 2 ^ Z.to_N (- e))%N, b)
  else (a, (b * 2 ^ Z.to_N e)%N).

(** [a / (b * 2 ^ e) < 2 ^ 53] *)
Definition below_2_53 (a b : N) (e : Z) : bool :=
  let '(a', b') := scaled a b e in (a' <? 2 ^ 53 * b')%N.

(** [a / (b * 2 ^ e)] rounded to an integer. *)
Definition significand (a b : N) (e : Z) : N :=
  let '(a', b') := scaled a b e in round_half_even a' b'.

(** The double nearest to [a / b], for natural numbers [a] and [0 < b] in the
    range of the doubles: the exponent is the one that leaves 53 bits in
    front of the point.  ([a / (b * 2 ^ e)] lies between [2 ^ 52] and
    [2 ^ 54] for the first exponent tried.) *)
Definition nearest_double (a b : N) : double :=
  if (a =? 0)%N then (0%N, 0%Z)
  else
    let e := (Z.of_N (N.log2 a) - Z.of_N (N.log2 b) - 53)%Z in
    let e := if below_2_53 a b e then e else (e + 1)%Z in
    (significand a b e, e).

(** [Math.floor(d)] *)
Definition Math_floor (d : double) : N :=
  let '(m, e) := d in
  if (e <? 0)%Z then (m / 2 ^ Z.to_N (- e))%N else (m * 2 ^ Z.to_N e)%N.

(** The [do .. while (nr-- > 0)] loop of [numberToLetter], lines 183-187:
    the digits in the order they are pushed.  [nr % base58Length] is exact;
    [nr / base58Length] and [nr - 1] are rounded to doubles; the value of
    [nr - 1], a natural number, is read back with [Math_floor].  A pass
    leaves less than half of [nr], so [log2 nr] passes behind the first are
    enough ([numberToLetter_loop_fuel] below). *)
Fixpoint numberToLetter_loop (fuel : nat) (nr : N) : list N :=
  let v := (nr mod base58Length)%N in
  let nr := Math_floor (nearest_double nr base58Length) in
  match fuel with
  | O => [v]
  | S fuel =>
      if (0 <? nr)%N
      then v :: numberToLetter_loop fuel
                  (Math_floor (nearest_double (nr - 1) 1))
      else [v]
  end.

(** [base58Chars[d]] inside [join('')]: the character, or nothing when
    there is none at [d]. *)
Definition base58Char (d : N) : string :=
  match String.get (N.to_nat d) base58Chars with
  | Some c => String c EmptyString
  | None => EmptyString
  end.

(** [numberToLetter(nr)] for a number whose value is a natural number,
    lines 181-192. *)
Definition numberToLetter (nr : N) : string :=
  let digits := numberToLetter_loop (N.to_nat (N.log2 nr)) nr in
  foldr String.append EmptyString (base58Char <$> rev digits).

(** The number a list of digits stands for, least digit first: the
    numeration is bijective, a digit in a higher place counts one more. *)
Fixpoint number_of_digits (digits : list N) : N :=
  match digits with
  | [] => 0
  | [v] => v
  | v :: digits => (v + base58Length * (number_of_digits digits + 1))%N
  end.

(** The first loop of [trimDots], line 201. *)
Fixpoint trimDots_start (str : list ascii) : list ascii :=
  match str with
  | "."%char :: rest => trimDots_start rest
  | _ => str
  end.

(** The second loop of [trimDots], line 204; every pass takes a character
    off, so [length str] passes are enough. *)
Fixpoint trimDots_end (fuel : nat) (str : list ascii) : list ascii :=
  match fuel with
  | O => str
  | S fuel =>
      match last str with
      | Some "."%char => trimDots_end fuel (removelast str)
      | _ => str
      end
  end.

(** [trimDots(str)], lines 199-207. *)
Definition trimDots (str : list ascii) : list ascii :=
  let str := trimDots_start str in
  trimDots_end (length str) str.

Definition is_dot (c : ascii) : Prop := c = "."%char.

End Util.

(** ** Further runs of the demo *)
Module Scenario.

(** A batch with more documents behind it. *)
Definition more_pulled : ReplicationPullHandlerResult :=
  {| documents := [0; 1]; hasMoreDocuments := true |}.

(** A live pull that is canceled while [pull.handler] is in flight. *)
Definition canceled_during_pull : World :=
  Demo.after [ClosureStarts; Demo.no_lastPullDocument; CallCancel]
    (Demo.start true None true).

(** A live pull that is canceled while the checkpoint of a batch is
    written. *)
Definition canceled_during_checkpoint : World :=
  Demo.after
    [ClosureStarts; Demo.no_lastPullDocument;
     Settles (ResolvedPull more_pulled);
     Settles (ResolvedFound Demo.alice_stored); Settles Resolved; CallCancel]
    (Demo.start true None true).

(** A live pull whose first cycle has failed; the cycle of the interval loop
    awaits [pull.handler]. *)
Definition interval_cycle_awaits_handler : World :=
  Demo.after
    [ClosureStarts; Demo.no_lastPullDocument; Settles (Rejected "offline");
     IntervalElapsed; ClosureStarts; Demo.no_lastPullDocument]
    (Demo.start true None true).

(** A one-shot pull that looks its batch up in the local storage. *)
Definition pull_awaits_found : World :=
  Demo.after
    [ClosureStarts; Demo.no_lastPullDocument;
     Settles (ResolvedPull Demo.both_pulled)]
    (Demo.start true None false).

(** A document without the primary key. *)
Definition nameless : obj := {[ "age" := JNum 3 ]}.

Definition alice_and_nameless : ReplicationPullHandlerResult :=
  {| documents := [0; 1]; hasMoreDocuments := false |}.

(** A one-shot pull in dev-mode that awaits [pull.handler]. *)
Definition dev_pull_awaits_handler : World :=
  Demo.after [ClosureStarts; Demo.no_lastPullDocument]
    (replicateRxCollection (Demo.options true None false) false false true
       "id" [Demo.alice; nameless]).

(** Three calls of [run()] while the first cycle of a live pull is in
    flight. *)
Definition after_burst : World :=
  Demo.after (CallRun <$> Demo.burst) Demo.pull_in_flight.

End Scenario.

(** The cycle functions are unfolded by hand, one at a time. *)
Arguments closure_tail : simpl never.
Arguments _run_after_pull : simpl never.
Arguments runPull_return : simpl never.
Arguments runPull : simpl never.
Arguments _run_pull : simpl never.
Arguments _run_after_push : simpl never.
Arguments runPush_return : simpl never.
Arguments runPush : simpl never.
Arguments _run_push : simpl never.
Arguments _run : simpl never.
Arguments closure : simpl never.
Arguments run : simpl never.
Arguments cancel : simpl never.
Arguments isStopped : simpl never.

(** * Properties *)

Section Properties.
Context `{Collaborators}.

(** ** isStopped *)

(** C6: [isStopped()] is [true] exactly when the collection is destroyed, or
    the state is not live and the initial replication is complete, or the
    state has been canceled. *)
Theorem isStopped_iff (w : World) :
  isStopped w = true <->
  destroyed w = true
  \/ (live w = false /\ initialReplicationComplete w = true)
  \/ canceled w = true.
Proof.
  unfold isStopped.
  destruct (destroyed w), (live w), (initialReplicationComplete w),
    (canceled w); simpl; intuition congruence.
Qed.

(** ** The subscriber of the change stream *)

(** C1, as the code has it: for a change event that is not local and whose
    document has a revision, the subscriber calls [run()] exactly when the
    revision is not pull-tagged for this identifier and the replication
    state is not stopped; for a pull-tagged revision it never calls
    [run()]. *)
Theorem echo_suppression_unless_stopped (w : World) (cE : RxChangeEvent)
    (rev : string) :
  isLocal cE = false ->
  getDocumentDataOfRxChangeEvent cE !! "_rev" = Some (JStr rev) ->
  rev <> EmptyString ->
  changeEventSubscriber cE w
  = (if wasRevisionfromPullReplication (replicationIdentifier w) rev
        || isStopped w
     then None else Some true)
  /\ onChangeEvent cE w
     = (if wasRevisionfromPullReplication (replicationIdentifier w) rev
           || isStopped w
        then w else run true w).
Proof.
  intros Hlocal Hrev Hne.
  assert (Hsub : changeEventSubscriber cE w
                 = (if wasRevisionfromPullReplication
                         (replicationIdentifier w) rev || isStopped w
                    then None else Some true)).
  { unfold changeEventSubscriber. rewrite Hrev.
    destruct (isStopped w); [by rewrite orb_true_r|].
    rewrite orb_false_r.
    destruct (String.eqb_spec rev EmptyString); [done|]. simpl.
    by destruct (wasRevisionfromPullReplication _ rev). }
  split; [done|].
  unfold onChangeEvent. rewrite Hlocal, Hsub. simpl.
  by destruct (_ || _).
Qed.

Lemma forallb_of_body_Send (docs : list loc) :
  forallb of_body (Send <$> docs) = true.
Proof. by induction docs. Qed.

Lemma forallb_of_body_Received (docs : list loc) :
  forallb of_body (Received <$> docs) = true.
Proof. by induction docs. Qed.

(** ** The running closure *)

Lemma proceeds_refl w : proceeds w w.
Proof.
  split; try done; [by exists []; rewrite app_nil_r | by exists []; rewrite app_nil_r].
Qed.

Lemma proceeds_emit ev w : of_body ev = true -> proceeds w (emit ev w).
Proof.
  intros Hev. split; try done; simpl.
  - exists [ev]. simpl. by rewrite Hev.
  - exists []. by rewrite app_nil_r.
Qed.

Lemma proceeds_emit_each evs w :
  forallb of_body evs = true -> proceeds w (emit_each evs w).
Proof.
  intros Hev. split; try done; simpl.
  - by exists evs.
  - exists []. by rewrite app_nil_r.
Qed.

Lemma proceeds_setTimeout_run w : proceeds w (setTimeout_run w).
Proof.
  split; try done; simpl.
  - by exists [SetTimeout (retryTime w)].
  - by exists [retryTime w].
Qed.

Lemma proceeds_set_objects h w : proceeds w (set_objects h w).
Proof.
  split; try done; simpl; exists []; by rewrite app_nil_r.
Qed.

Lemma proceeds_trans w1 w2 w3 : proceeds w1 w2 -> proceeds w2 w3 -> proceeds w1 w3.
Proof.
  intros [] []. split; try congruence.
  - destruct pro_log0 as (b1 & Hb1 & E1), pro_log1 as (b2 & Hb2 & E2).
    exists (b1 ++ b2). rewrite forallb_app, Hb1, Hb2, E2, E1.
    by rewrite app_assoc.
  - destruct pro_timers0 as (t1 & E1), pro_timers1 as (t2 & E2).
    exists (t1 ++ t2). by rewrite E2, E1, app_assoc.
Qed.

Lemma continues_proceeds e w w1 w2 :
  proceeds w w1 -> continues e w1 w2 -> continues e w w2.
Proof.
  intros [] [].
  destruct pro_log0 as (b1 & Hb1 & E1), cont_log0 as (b2 & Hb2 & E2).
  destruct pro_timers0 as (t1 & T1), cont_timers0 as (t2 & T2).
  split; try congruence; try (destruct e; congruence).
  - exists (b1 ++ b2). rewrite forallb_app, Hb1, Hb2, E2, E1.
    by rewrite !app_assoc.
  - exists (t1 ++ t2). by rewrite T2, T1, app_assoc.
  - intros He. rewrite <- pro_initial0. auto.
Qed.

Lemma goes_on_proceeds retryOnFail w w1 w2 :
  proceeds w w1 -> goes_on retryOnFail w1 w2 -> goes_on retryOnFail w w2.
Proof.
  intros Hp (e & He & Hr). exists e. split; [|done].
  by eapply continues_proceeds.
Qed.

Lemma continues_suspend p w : continues (Suspended p) w (suspend p w).
Proof.
  split; try done; simpl; exists []; by rewrite ?app_nil_r.
Qed.

Lemma continues_throw w : continues Thrown w (throw w).
Proof.
  split; try done; simpl; exists []; by rewrite ?app_nil_r.
Qed.

Lemma continues_closure_tail retryOnFail willRetry w :
  continues
    (Finished (retryOnFail && negb willRetry
               && negb (initialReplicationComplete w)))
    w (closure_tail retryOnFail willRetry w).
Proof.
  unfold closure_tail. simpl.
  destruct (retryOnFail && negb willRetry
            && negb (initialReplicationComplete w)) eqn:E.
  - split; try done; simpl.
    + exists []. split; [done | by rewrite <- app_assoc].
    + exists []. by rewrite app_nil_r.
    + intros _. by destruct (initialReplicationComplete w), retryOnFail, willRetry.
  - split; try done; simpl.
    + by exists [].
    + exists []. by rewrite app_nil_r.
Qed.

(** Moves the source of [goes_on] over what the body has done so far. *)
Ltac body :=
  repeat match goal with
  | |- goes_on ?r ?w ?t =>
      match t with
      | context [emit ?ev w] =>
          apply (goes_on_proceeds r w (emit ev w));
          [ apply proceeds_emit; reflexivity | ]
      | context [emit_each ?evs w] =>
          apply (goes_on_proceeds r w (emit_each evs w));
          [ apply proceeds_emit_each | ]
      | context [setTimeout_run w] =>
          apply (goes_on_proceeds r w (setTimeout_run w));
          [ apply proceeds_setTimeout_run | ]
      | context [set_objects ?h w] =>
          apply (goes_on_proceeds r w (set_objects h w));
          [ apply proceeds_set_objects | ]
      end
  end.

Lemma goes_on_closure_tail retryOnFail willRetry w :
  goes_on retryOnFail w (closure_tail retryOnFail willRetry w).
Proof.
  eexists. split; [apply continues_closure_tail|].
  simpl. by destruct retryOnFail.
Qed.

Lemma goes_on_suspend retryOnFail p w :
  retryOnFail_of p = retryOnFail -> goes_on retryOnFail w (suspend p w).
Proof. intros Hp. eexists. split; [apply continues_suspend|done]. Qed.

Lemma goes_on_throw retryOnFail w : goes_on retryOnFail w (throw w).
Proof. eexists. split; [apply continues_throw|done]. Qed.

Lemma goes_on__run_after_pull retryOnFail ok w :
  goes_on retryOnFail w (_run_after_pull retryOnFail ok w).
Proof.
  unfold _run_after_pull. case_match; body; apply goes_on_closure_tail.
Qed.

Lemma goes_on_runPull_return retryOnFail outer ok w :
  goes_on retryOnFail w (runPull_return retryOnFail outer ok w).
Proof. apply goes_on__run_after_pull. Qed.

Lemma goes_on_runPull retryOnFail outer w :
  goes_on retryOnFail w (runPull retryOnFail outer w).
Proof.
  unfold runPull. simpl.
  repeat case_match; body;
    auto using goes_on_throw, goes_on_runPull_return, goes_on_suspend.
Qed.

Lemma goes_on__run_pull retryOnFail w : goes_on retryOnFail w (_run_pull retryOnFail w).
Proof.
  unfold _run_pull. case_match;
    auto using goes_on_runPull, goes_on_closure_tail.
Qed.

Lemma goes_on__run_after_push retryOnFail ok w :
  goes_on retryOnFail w (_run_after_push retryOnFail ok w).
Proof.
  unfold _run_after_push. case_match; body;
    auto using goes_on__run_pull, goes_on_closure_tail.
Qed.

Lemma goes_on_runPush_return retryOnFail outer ok w :
  goes_on retryOnFail w (runPush_return retryOnFail outer ok w).
Proof. apply goes_on__run_after_push. Qed.

Lemma goes_on_runPush retryOnFail outer w :
  goes_on retryOnFail w (runPush retryOnFail outer w).
Proof.
  unfold runPush. simpl.
  case_match; body; auto using goes_on_throw, goes_on_suspend.
Qed.

Lemma goes_on__run_push retryOnFail w : goes_on retryOnFail w (_run_push retryOnFail w).
Proof.
  unfold _run_push. case_match;
    auto using goes_on_runPush, goes_on__run_pull.
Qed.

Lemma goes_on__run retryOnFail w :
  goes_on retryOnFail (set_runCount (runCount w + 1)%Z w) (_run retryOnFail w).
Proof.
  unfold _run. simpl. case_match; body;
    auto using goes_on_suspend, goes_on__run_push.
Qed.

Lemma goes_on_runPush_collected retryOnFail outer changesResult w :
  goes_on retryOnFail w (runPush_collected retryOnFail outer changesResult w).
Proof.
  unfold runPush_collected. case_match. body. by apply goes_on_suspend.
Qed.

Lemma goes_on_runPush_caught retryOnFail outer err w :
  goes_on retryOnFail w (runPush_caught retryOnFail outer err w).
Proof. unfold runPush_caught. body. apply goes_on_runPush_return. Qed.

Lemma goes_on_runPush_pushed retryOnFail outer changesResult pushDocs w :
  goes_on retryOnFail w (runPush_pushed retryOnFail outer changesResult pushDocs w).
Proof.
  unfold runPush_pushed. simpl. body;
    [ apply forallb_of_body_Send | by apply goes_on_suspend ].
Qed.

Lemma goes_on_runPush_persisted retryOnFail outer changesResult w :
  goes_on retryOnFail w (runPush_persisted retryOnFail outer changesResult w).
Proof.
  unfold runPush_persisted. case_match;
    auto using goes_on_runPush, goes_on_runPush_return.
Qed.

Lemma goes_on_runPull_loaded retryOnFail outer latestDocument w :
  goes_on retryOnFail w (runPull_loaded retryOnFail outer latestDocument w).
Proof. unfold runPull_loaded. body. by apply goes_on_suspend. Qed.

Lemma goes_on_runPull_caught retryOnFail outer err w :
  goes_on retryOnFail w (runPull_caught retryOnFail outer err w).
Proof. unfold runPull_caught. body. apply goes_on_runPull_return. Qed.

Lemma goes_on_handleDocumentsFromRemote retryOnFail outer result w :
  goes_on retryOnFail w (handleDocumentsFromRemote retryOnFail outer result w).
Proof.
  unfold handleDocumentsFromRemote. simpl. body. by apply goes_on_suspend.
Qed.

Lemma goes_on_runPull_written retryOnFail outer result w :
  goes_on retryOnFail w (runPull_written retryOnFail outer result w).
Proof.
  unfold runPull_written. simpl. case_match; body;
    auto using forallb_of_body_Received, goes_on_suspend,
      goes_on_runPull_return.
Qed.

Lemma goes_on_handleDocumentsFromRemote_found retryOnFail outer result
    docsFromLocal w :
  goes_on retryOnFail w
    (handleDocumentsFromRemote_found retryOnFail outer result docsFromLocal
       w).
Proof.
  unfold handleDocumentsFromRemote_found. simpl. repeat case_match; body;
    auto using goes_on_suspend, goes_on_runPull_written.
Qed.

Lemma goes_on_runPull_pulled retryOnFail outer result w :
  goes_on retryOnFail w (runPull_pulled retryOnFail outer result w).
Proof.
  unfold runPull_pulled. simpl. repeat case_match; body;
    auto using goes_on_handleDocumentsFromRemote, goes_on_runPull_return.
Qed.

Lemma goes_on_runPull_persisted retryOnFail outer result w :
  goes_on retryOnFail w (runPull_persisted retryOnFail outer result w).
Proof.
  unfold runPull_persisted. case_match;
    auto using goes_on_runPull, goes_on_runPull_return.
Qed.

(** Whatever the awaited promise settles to, the closure goes on to one of
    the three endings. *)
Lemma goes_on_resume p r w w' :
  resume p r w = Some w' -> goes_on (retryOnFail_of p) w w'.
Proof.
  destruct p, r; simpl; intros; simplify_eq;
    auto using goes_on__run_push, goes_on_runPush_collected,
      goes_on_runPush_caught, goes_on_runPush_pushed,
      goes_on_runPush_persisted, goes_on_runPull_loaded,
      goes_on_runPull_caught, goes_on_handleDocumentsFromRemote_found,
      goes_on_runPull_written, goes_on_runPull_pulled,
      goes_on_runPull_persisted, goes_on_throw.
Qed.

(** ** The invariant *)

Lemma filter_initial_body body :
  forallb of_body body = true ->
  List.filter on_initialReplicationComplete body = [].
Proof.
  induction body as [|e body IH]; [done|]. simpl.
  intros [He Hb]%andb_true_iff. rewrite IH by done. by destruct e.
Qed.

Lemma filter_canceled_body body :
  forallb of_body body = true -> List.filter on_canceled body = [].
Proof.
  induction body as [|e body IH]; [done|]. simpl.
  intros [He Hb]%andb_true_iff. rewrite IH by done. by destruct e.
Qed.

Lemma filter_canceled_tail e : List.filter on_canceled (tail_events e) = [].
Proof. by destruct e as [| [] |]. Qed.

Lemma invariant_continues e w w' :
  invariant_executing w -> continues e w w' -> invariant w'.
Proof.
  intros [] []. destruct cont_log0 as (body & Hbody & Hlog).
  split.
  - unfold pending. rewrite cont_runQueueCount0, cont_running0,
      cont_rejected0, cont_queued0, exe_count0, exe_rejected0.
    destruct e; lia.
  - rewrite cont_runQueueCount0. destruct e; lia.
  - rewrite cont_active0, cont_running0, cont_rejected0, exe_active0,
      exe_rejected0.
    by destruct e.
  - rewrite cont_running0, cont_rejected0. by destruct e.
  - rewrite Hlog, !List.filter_app, (filter_initial_body body), exe_initial0,
      cont_initial0 by done.
    simpl. destruct e as [| [] |]; simpl; try by rewrite app_nil_r.
    by rewrite cont_completes0.
  - rewrite Hlog, !List.filter_app, (filter_canceled_body body),
      filter_canceled_tail, exe_canceled0, cont_canceled0 by done.
    by rewrite !app_nil_r.
  - rewrite cont_subscribed0, cont_live0, cont_push0. done.
Qed.

Lemma invariant_settles p w :
  invariant w -> running w = Some p -> invariant_executing w.
Proof.
  intros [] Hp. unfold pending in *. rewrite Hp in *.
  assert (rejected w = false) as Hr by eauto.
  rewrite Hr in *. split; try done; lia.
Qed.

Lemma invariant_starts retryOnFail rest w :
  invariant w -> running w = None -> rejected w = false ->
  queued w = retryOnFail :: rest ->
  invariant_executing
    (set_runCount (runCount w + 1)%Z (next_active true (set_queued rest w))).
Proof.
  intros [] Hp Hr Hq. unfold pending in *. rewrite Hp, Hr, Hq in *.
  split; simpl; try done.
  - simpl in *. lia.
  - rewrite List.filter_app. simpl. by rewrite app_nil_r.
  - rewrite List.filter_app. simpl. by rewrite app_nil_r.
Qed.

Lemma isStopped_false w :
  isStopped w = false ->
  destroyed w = false /\ canceled w = false
  /\ (live w = true \/ initialReplicationComplete w = false).
Proof.
  unfold isStopped.
  destruct (destroyed w), (live w), (initialReplicationComplete w),
    (canceled w); simpl; intuition congruence.
Qed.

Lemma invariant_run retryOnFail w : invariant w -> invariant (run retryOnFail w).
Proof.
  intros Hinv. unfold run.
  destruct (isStopped w); [done|].
  destruct (Z.ltb_spec 2 (runQueueCount w)); [done|].
  destruct Hinv.
  split; unfold pending in *; simpl; try done; rewrite ?length_app; simpl;
    lia.
Qed.

Lemma invariant_cancel w : invariant w -> invariant (cancel w).1.
Proof.
  intros Hinv. unfold cancel.
  destruct (isStopped w) eqn:Hs; [done|].
  apply isStopped_false in Hs as (_ & Hc & _).
  destruct Hinv. rewrite Hc in *.
  destruct (subscribed w) eqn:Hsub; split; unfold pending in *; simpl;
    try done; rewrite ?List.filter_app; simpl;
    by rewrite ?app_nil_r, ?inv_initial0, ?inv_canceled0, ?Hsub.
Qed.

Lemma invariant_set_destroyed v w : invariant w -> invariant (set_destroyed v w).
Proof. by intros []. Qed.

Lemma invariant_set_timers v w : invariant w -> invariant (set_timers v w).
Proof. by intros []. Qed.

Lemma invariant_set_looping v w : invariant w -> invariant (set_looping v w).
Proof. by intros []. Qed.

Lemma invariant_closure retryOnFail rest w :
  invariant w -> running w = None -> rejected w = false ->
  queued w = retryOnFail :: rest ->
  invariant (closure retryOnFail (set_queued rest w)).
Proof.
  intros Hinv Hp Hr Hq.
  destruct (goes_on__run retryOnFail (next_active true (set_queued rest w)))
    as (e & He & _).
  eapply invariant_continues; [|exact He].
  exact (invariant_starts retryOnFail rest w Hinv Hp Hr Hq).
Qed.

(** Every turn of the event loop keeps the invariant. *)
Lemma invariant_step l w w' : invariant w -> step l w = Some w' -> invariant w'.
Proof.
  intros Hinv Hstep. destruct l; simpl in Hstep.
  - simplify_eq. by apply invariant_run.
  - simplify_eq. by apply invariant_cancel.
  - destruct (destroyed w); simplify_eq.
    auto using invariant_cancel, invariant_set_destroyed.
  - destruct (subscribed w); simplify_eq. unfold onChangeEvent.
    repeat case_match; auto using invariant_run.
  - destruct (timers w); simplify_eq.
    by apply invariant_run, invariant_set_timers.
  - destruct (looping w); simplify_eq. unfold onInterval.
    case_match; auto using invariant_run, invariant_set_looping.
  - destruct (running w) eqn:Hp; [done|].
    destruct (queued w) eqn:Hq; [done|].
    destruct (rejected w) eqn:Hr; simplify_eq.
    by apply invariant_closure.
  - destruct (running w) eqn:Hp; [|done].
    apply goes_on_resume in Hstep as (e & He & _).
    eapply invariant_continues; [|exact He].
    by eapply invariant_settles.
Qed.

Lemma invariant_steps ls w w' :
  invariant w -> steps ls w = Some w' -> invariant w'.
Proof.
  revert w. induction ls as [|l ls IH]; simpl; intros w Hinv Hs.
  - by simplify_eq.
  - destruct (step l w) eqn:Hl; [|done]. eauto using invariant_step.
Qed.

Lemma invariant_set_subscribed w :
  invariant w -> live w = true -> is_Some (push w) ->
  invariant (set_subscribed true w).
Proof. intros [] Hlive Hpush. by split. Qed.

Lemma invariant_replicateRxCollection o multiInstance isDestroyed dev path
    h :
  invariant (replicateRxCollection o multiInstance isDestroyed dev path h).
Proof.
  unfold replicateRxCollection. cbv zeta.
  set (w0 := Build_World _ _ _ _ _ _ _ _ _ _ _ _ _ _ _ _ _ _ _ _ _ _).
  assert (invariant (run true w0)) as Hinv.
  { apply invariant_run. split; try done;
      simpl; by destruct (opt_waitForLeadership o && multiInstance). }
  revert Hinv. generalize (run true w0). intros w Hinv.
  destruct (live w) eqn:Hlive; [|done].
  set (w1 := if pull w && negb (isStopped w) then set_looping true w
             else w).
  assert (invariant w1 /\ live w1 = true /\ push w1 = push w)
    as (Hinv1 & Hlive1 & Hpush1).
  { unfold w1. case_match; auto using invariant_set_looping. }
  rewrite Hpush1. destruct (push w) eqn:Hpush; [|done].
  apply invariant_set_subscribed; [done..|]. by rewrite Hpush1.
Qed.

Lemma replicateRxCollection_started o multiInstance isDestroyed dev path h :
  started o multiInstance isDestroyed
    (replicateRxCollection o multiInstance isDestroyed dev path h).
Proof.
  unfold replicateRxCollection. cbv zeta.
  set (w0 := Build_World _ _ _ _ _ _ _ _ _ _ _ _ _ _ _ _ _ _ _ _ _ _).
  assert (run true w0
          = if isDestroyed then w0
            else set_queued [true] (set_runQueueCount 1%Z w0)) as ->.
  { unfold run, isStopped. simpl. destruct isDestroyed; [done|].
    simpl. by rewrite andb_false_r. }
  destruct isDestroyed, (default false (opt_live o)) eqn:Hlive,
    (opt_pull o) eqn:Hpull, (opt_push o) eqn:Hpush;
    simpl; unfold isStopped; simpl; rewrite ?Hlive, ?Hpull, ?Hpush; simpl;
    split; simpl; unfold isStopped; simpl;
    rewrite ?Hlive, ?Hpull, ?Hpush; done.
Qed.

(** The invariant holds in every state the replication can be in. *)
Lemma reachable_invariant w : reachable w -> invariant w.
Proof.
  intros (o & multiInstance & isDestroyed & dev & path & h & ls & Hs).
  eauto using invariant_steps, invariant_replicateRxCollection.
Qed.

(** ** Turns that do not execute the closure *)

Lemma run_unchanged retryOnFail w :
  initialReplicationComplete (run retryOnFail w)
  = initialReplicationComplete w
  /\ canceled (run retryOnFail w) = canceled w
  /\ log (run retryOnFail w) = log w
  /\ running (run retryOnFail w) = running w
  /\ runCount (run retryOnFail w) = runCount w
  /\ isStopped (run retryOnFail w) = isStopped w.
Proof. unfold run. by repeat case_match. Qed.

Lemma run_stopped retryOnFail w : isStopped w = true -> run retryOnFail w = w.
Proof. intros Hs. unfold run. by rewrite Hs. Qed.

Lemma cancel_stopped w : isStopped w = true -> cancel w = (w, false).
Proof. intros Hs. unfold cancel. by rewrite Hs. Qed.

Lemma canceled_isStopped w : canceled w = true -> isStopped w = true.
Proof. intros Hc. unfold isStopped. rewrite Hc. by repeat case_match. Qed.

Lemma cancel_initial w :
  initialReplicationComplete (cancel w).1 = initialReplicationComplete w.
Proof. unfold cancel. by repeat case_match. Qed.

(** The closure that starts goes on from the state in which [active] is set
    and the cycle is counted. *)
Lemma step_closure_goes_on retryOnFail rest w :
  exists e,
    continues e
      (set_runCount (runCount w + 1)%Z
         (next_active true (set_queued rest w)))
      (closure retryOnFail (set_queued rest w))
    /\ ends_for retryOnFail e.
Proof.
  exact (goes_on__run retryOnFail (next_active true (set_queued rest w))).
Qed.

(** [initialReplicationComplete] changes only in a turn that finishes a
    cycle run with [retryOnFail = true]. *)
Lemma step_initial l w w' :
  step l w = Some w' ->
  initialReplicationComplete w' = initialReplicationComplete w
  \/ (cycle_of_step l w = Some true /\ running w' = None
      /\ initialReplicationComplete w = false
      /\ initialReplicationComplete w' = true).
Proof.
  intros Hstep. destruct l; simpl in Hstep.
  - simplify_eq. left. apply run_unchanged.
  - simplify_eq. left. apply cancel_initial.
  - destruct (destroyed w); simplify_eq. by left.
  - destruct (subscribed w); simplify_eq. left. unfold onChangeEvent.
    repeat case_match; try done; apply run_unchanged.
  - destruct (timers w); simplify_eq. left.
    by destruct (run_unchanged true (set_timers l w)) as [-> _].
  - destruct (looping w); simplify_eq. left. unfold onInterval.
    case_match; [done|]. apply run_unchanged.
  - destruct (running w) eqn:Hp; [done|].
    destruct (queued w) as [|retryOnFail rest] eqn:Hq; [done|].
    destruct (rejected w) eqn:Hr; simplify_eq.
    destruct (step_closure_goes_on retryOnFail rest w) as (e & [] & He).
    simpl in *. rewrite Hq. simpl.
    destruct e as [p|[]|]; simpl in *; auto.
    assert (retryOnFail = true) as -> by auto.
    right. repeat split; auto.
  - destruct (running w) as [p|] eqn:Hp; [|done].
    apply goes_on_resume in Hstep as (e & [] & He).
    destruct e as [p'|[]|]; simpl in *; auto.
    right. repeat split; auto. rewrite Hp. simpl. f_equal. auto.
Qed.

(** ** initialReplicationComplete *)

Lemma closure_tail_initial retryOnFail willRetry w :
  initialReplicationComplete (closure_tail retryOnFail willRetry w)
  = initialReplicationComplete w || (retryOnFail && negb willRetry).
Proof.
  destruct (continues_closure_tail retryOnFail willRetry w).
  rewrite cont_initial0.
  by destruct retryOnFail, willRetry, (initialReplicationComplete w).
Qed.

(** C2, as the code has it: [initialReplicationComplete] receives at most
    one value over the lifetime of the state, the value [true], and never
    goes back to [false]; it changes only in a turn that finishes a cycle run
    with [retryOnFail = true]: the tail of the closure sets it when the
    cycle was run with [retryOnFail = true] and [_run] returned [false] (no
    retry).  A cycle run with [retryOnFail = false] never sets it. *)
Theorem initialReplicationComplete_once (l : label) (w w' : World) :
  reachable w ->
  step l w = Some w' ->
  List.filter on_initialReplicationComplete (log w')
  = (if initialReplicationComplete w'
     then [InitialReplicationComplete true] else [])
  /\ implb (initialReplicationComplete w) (initialReplicationComplete w')
     = true
  /\ (initialReplicationComplete w' = initialReplicationComplete w
      \/ (cycle_of_step l w = Some true /\ running w' = None))
  /\ (forall retryOnFail willRetry v,
        initialReplicationComplete (closure_tail retryOnFail willRetry v)
        = initialReplicationComplete v || (retryOnFail && negb willRetry)).
Proof.
  intros Hreach Hstep.
  pose proof (reachable_invariant _ Hreach) as Hinv.
  pose proof (invariant_step _ _ _ Hinv Hstep) as [].
  split; [done|].
  destruct (step_initial _ _ _ Hstep) as [Heq | (Hc & Hr & Hf & Ht)].
  - rewrite Heq. split; [by destruct (initialReplicationComplete w)|].
    split; [by left|]. apply closure_tail_initial.
  - rewrite Hf, Ht. split; [done|]. split; [by right|].
    apply closure_tail_initial.
Qed.

(** ** canceled *)

(** A turn never takes [canceled] back. *)
Lemma step_canceled l w w' :
  step l w = Some w' -> canceled w = true -> canceled w' = true.
Proof.
  intros Hstep Hc. destruct l; simpl in Hstep.
  - simplify_eq. by destruct (run_unchanged retryOnFail w) as (_ & -> & _).
  - simplify_eq. by rewrite cancel_stopped by by apply canceled_isStopped.
  - by destruct (destroyed w); simplify_eq.
  - destruct (subscribed w); simplify_eq. unfold onChangeEvent.
    repeat case_match; try done.
    by destruct (run_unchanged b w) as (_ & -> & _).
  - destruct (timers w); simplify_eq.
    by destruct (run_unchanged true (set_timers l w)) as (_ & -> & _).
  - destruct (looping w); simplify_eq. unfold onInterval.
    case_match; [done|].
    by destruct (run_unchanged false w) as (_ & -> & _).
  - destruct (running w) eqn:Hp; [done|].
    destruct (queued w) as [|retryOnFail rest] eqn:Hq; [done|].
    destruct (rejected w) eqn:Hr; simplify_eq.
    destruct (step_closure_goes_on retryOnFail rest w) as (e & [] & _).
    by rewrite cont_canceled0.
  - destruct (running w) as [p|] eqn:Hp; [|done].
    apply goes_on_resume in Hstep as (e & [] & He). congruence.
Qed.

(** Once the state is canceled, a turn in which a caller enters it leaves
    the events and the chain as they are; the other turns let the closures
    that are chained already go on. *)
Lemma step_after_cancel l w w' :
  step l w = Some w' -> canceled w = true ->
  if internal l then length (queued w') <= length (queued w)
  else log w' = log w /\ queued w' = queued w.
Proof.
  intros Hstep Hc. pose proof (canceled_isStopped _ Hc) as Hs.
  destruct l; simpl in Hstep; simpl.
  - simplify_eq. by rewrite run_stopped.
  - simplify_eq. by rewrite cancel_stopped.
  - by destruct (destroyed w); simplify_eq.
  - destruct (subscribed w); simplify_eq. unfold onChangeEvent.
    repeat case_match; try done. by rewrite run_stopped.
  - destruct (timers w); simplify_eq. by rewrite run_stopped.
  - destruct (looping w); simplify_eq. unfold onInterval. by rewrite Hs.
  - destruct (running w) eqn:Hp; [done|].
    destruct (queued w) as [|retryOnFail rest] eqn:Hq; [done|].
    destruct (rejected w) eqn:Hr; simplify_eq.
    destruct (step_closure_goes_on retryOnFail rest w) as (e & [] & _).
    rewrite cont_queued0. simpl. lia.
  - destruct (running w) as [p|] eqn:Hp; [|done].
    apply goes_on_resume in Hstep as (e & [] & He).
    by rewrite cont_queued0.
Qed.

(** C5, as the code has it: [canceled] receives at most one value, the value
    [true], and never goes back to [false].  Once it is [true],
    [isStopped()] is [true], [run()] and [cancel()] change nothing, and no
    turn in which a caller enters the state adds an event or a cycle to the
    chain; only the closures that were chained before go on to their end. *)
Theorem canceled_once_and_stopped (l : label) (w w' : World) :
  reachable w ->
  step l w = Some w' ->
  List.filter on_canceled (log w')
  = (if canceled w' then [Canceled true] else [])
  /\ implb (canceled w) (canceled w') = true
  /\ (canceled w' = true ->
      isStopped w' = true
      /\ (forall retryOnFail, run retryOnFail w' = w')
      /\ cancel w' = (w', false))
  /\ (canceled w = true ->
      if internal l then length (queued w') <= length (queued w)
      else log w' = log w /\ queued w' = queued w).
Proof.
  intros Hreach Hstep.
  pose proof (reachable_invariant _ Hreach) as Hinv.
  pose proof (invariant_step _ _ _ Hinv Hstep) as [].
  split; [done|]. split; [|split].
  - destruct (canceled w) eqn:Hc; [|done].
    by rewrite (step_canceled _ _ _ Hstep Hc).
  - intros Hc%canceled_isStopped.
    auto using run_stopped, cancel_stopped.
  - intros Hc. by apply step_after_cancel.
Qed.

(** ** Coalescing of run() *)

Lemma reachable_steps ls w w' :
  reachable w -> steps ls w = Some w' -> reachable w'.
Proof.
  intros (o & multiInstance & isDestroyed & dev & path & h & ls0 & Hs) Hs'.
  exists o, multiInstance, isDestroyed, dev, path, h, (ls0 ++ ls).
  revert Hs.
  generalize (replicateRxCollection o multiInstance isDestroyed dev path h).
  induction ls0 as [|l ls0 IH]; simpl; intros w0 Hs.
  - by simplify_eq.
  - destruct (step l w0); [|done]. eauto.
Qed.

(** A burst of calls of [run] starts nothing. *)
Lemma burst_unchanged bs w w1 :
  steps (CallRun <$> bs) w = Some w1 ->
  running w1 = running w /\ runCount w1 = runCount w /\ log w1 = log w.
Proof.
  revert w. induction bs as [|b bs IH]; simpl; intros w Hs.
  - by simplify_eq.
  - apply IH in Hs as (-> & -> & ->).
    destruct (run_unchanged b w) as (_ & _ & ? & ? & ? & _). done.
Qed.

(** While a closure is executing, at most two are chained behind it. *)
Lemma followers_bound w :
  invariant w -> is_Some (running w) -> length (queued w) <= 2.
Proof.
  intros [] Hrun. unfold pending in *.
  rewrite (inv_running0 Hrun) in *. destruct Hrun as [p Hp].
  rewrite Hp in *. lia.
Qed.

(** A turn of the chain: a start takes one closure off the chain and counts
    one more cycle, a settling does neither. *)
Lemma step_internal l w w' :
  internal l = true -> step l w = Some w' ->
  (runCount w' = runCount w + (if is_ClosureStarts l then 1 else 0))%Z
  /\ length (queued w)
     = length (queued w') + (if is_ClosureStarts l then 1 else 0).
Proof.
  intros Hl Hstep. destruct l; try done; simpl in Hstep; simpl.
  - destruct (running w) eqn:Hp; [done|].
    destruct (queued w) as [|retryOnFail rest] eqn:Hq; [done|].
    destruct (rejected w) eqn:Hr; simplify_eq.
    destruct (step_closure_goes_on retryOnFail rest w) as (e & [] & _).
    rewrite cont_queued0, cont_runCount0. simpl. lia.
  - destruct (running w) as [p|] eqn:Hp; [|done].
    apply goes_on_resume in Hstep as (e & [] & He).
    rewrite cont_queued0, cont_runCount0. lia.
Qed.

Lemma steps_internal ls w w' :
  forallb internal ls = true -> steps ls w = Some w' ->
  (runCount w'
   = runCount w + Z.of_nat (length (List.filter is_ClosureStarts ls)))%Z
  /\ length (queued w)
     = length (queued w') + length (List.filter is_ClosureStarts ls).
Proof.
  revert w. induction ls as [|l ls IH]; simpl; intros w Hall Hs.
  - simplify_eq. lia.
  - apply andb_true_iff in Hall as [Hl Hall].
    destruct (step l w) as [w1|] eqn:Hstep; [|done].
    destruct (step_internal _ _ _ Hl Hstep) as [Hc Hq].
    destruct (IH _ Hall Hs) as [Hc' Hq'].
    destruct (is_ClosureStarts l); simpl; lia.
Qed.

(** C4: any number of calls of [run()] (in particular three or more) made
    while a cycle is in flight lets at most two further cycles execute
    afterwards, as long as nothing else calls [run()]: at most two closures
    start, and [runCount] grows by at most two. *)
Theorem bounded_coalescing (w w1 w2 : World) (bs : list bool)
    (ls : list label) :
  reachable w ->
  is_Some (running w) ->
  steps (CallRun <$> bs) w = Some w1 ->
  forallb internal ls = true ->
  steps ls w1 = Some w2 ->
  length (List.filter is_ClosureStarts ls) <= 2
  /\ (runCount w2 <= runCount w + 2)%Z.
Proof.
  intros Hreach Hrun Hburst Hall Hdrain.
  destruct (burst_unchanged _ _ _ Hburst) as (Hp & Hc & _).
  pose proof (reachable_steps _ _ _ Hreach Hburst) as Hreach1.
  apply reachable_invariant in Hreach1.
  assert (length (queued w1) <= 2) as Hq.
  { apply followers_bound; [done|]. by rewrite Hp. }
  destruct (steps_internal _ _ _ Hall Hdrain) as [Hc2 Hq2].
  lia.
Qed.

(** C3, as the code has it: cycles never execute in parallel -- a closure
    starts only when none is executing and [active] is [false], and a burst
    of calls of [run()] made while a cycle is in flight starts nothing -- and
    such a burst leaves at most two closures chained behind the cycle in
    flight. *)
Theorem serialized_with_two_followers (w w1 : World) (bs : list bool) :
  reachable w ->
  is_Some (running w) ->
  steps (CallRun <$> bs) w = Some w1 ->
  running w1 = running w
  /\ step ClosureStarts w1 = None
  /\ length (queued w1) <= 2
  /\ (forall v v', reachable v -> step ClosureStarts v = Some v' ->
        running v = None /\ active v = false).
Proof.
  intros Hreach Hrun Hburst.
  destruct (burst_unchanged _ _ _ Hburst) as (Hp & _ & _).
  pose proof (reachable_steps _ _ _ Hreach Hburst) as Hreach1.
  apply reachable_invariant in Hreach1.
  split; [done|]. split; [|split].
  - simpl. rewrite Hp. by destruct Hrun as [p ->].
  - apply followers_bound; [done|]. by rewrite Hp.
  - intros v v' Hinv%reachable_invariant Hstart. simpl in Hstart.
    destruct (running v) eqn:Hv; [done|].
    destruct (queued v); [done|].
    destruct (rejected v) eqn:Hr; [done|].
    split; [done|]. destruct Hinv as [_ _ Hact _ _ _ _].
    by rewrite Hact, Hv, Hr.
Qed.

(** ** runPush *)

(** C10: when [push] is configured and [push.batchSize] is absent or [0],
    [runPush()] asks the change collector for a batch of size 5. *)
Theorem default_batch_size (w : World) (p : ReplicationPushOptions)
    (retryOnFail outer : bool) :
  push w = Some p ->
  batchSize p = None \/ batchSize p = Some 0%Z ->
  runPush retryOnFail outer w
  = suspend (AtGetChanges retryOnFail outer)
      (emit (GetChangesSinceLastPushSequence (replicationIdentifier w) 5)
         (emit (Entered M_runPush) w)).
Proof.
  intros Hpush Hsize. unfold runPush. simpl. rewrite Hpush.
  unfold batchSize_or_default. by destruct Hsize as [-> | ->].
Qed.

Lemma isStopped_emit e w : isStopped (emit e w) = isStopped w.
Proof. done. Qed.

Lemma isStopped_setTimeout_run w : isStopped (setTimeout_run w) = isStopped w.
Proof. done. Qed.

(** What [_run] does once [runPush()] has returned: nothing of the push, and
    nothing is thrown. *)
Lemma _run_after_push_trace retryOnFail ok w :
  exists rest,
    log (_run_after_push retryOnFail ok w) = log w ++ rest
    /\ forallb (fun e => negb (of_push e)) rest = true
    /\ rejected (_run_after_push retryOnFail ok w) = rejected w.
Proof.
  unfold _run_after_push, _run_pull, runPull, runPull_return,
    _run_after_pull, closure_tail, throw, suspend, setTimeout_run,
    next_active, next_initialReplicationComplete, emit.
  destruct retryOnFail, ok, (pull w) eqn:Hpull, (isStopped w) eqn:Hs,
    (initialReplicationComplete w) eqn:Hi; simpl;
    rewrite ?Hpull; simpl;
    repeat match goal with
      | |- context [isStopped ?v] => change (isStopped v) with (isStopped w)
      end;
    rewrite ?Hs; simpl; rewrite ?Hi; simpl; rewrite <- ?app_assoc; simpl;
    eexists; (split; [reflexivity|]); done.
Qed.

(** C8: when [push.handler] throws, the error is pushed into [error$],
    [runPush()] returns [false], and the turn neither emits on [send$] nor
    persists [lastPushSequence]; the error is not thrown out of the closure
    of [run()]: the chain is not rejected by it.  The same holds for the
    error of [pull.handler]. *)
Theorem push_handler_failure_contained (w : World)
    (retryOnFail outer : bool) (changesResult : ChangesResult)
    (pushDocs : list loc) (err : string) :
  running w = Some (AtPushHandler retryOnFail outer changesResult pushDocs) ->
  exists w' rest,
    step (Settles (Rejected err)) w = Some w'
    /\ w' = runPush_return retryOnFail outer false (emit (Error err) w)
    /\ log w' = log w ++ Error err :: rest
    /\ forallb (fun e => negb (of_push e)) rest = true
    /\ rejected w' = rejected w
    /\ (forall v retryOnFail' outer' err' v',
          resume (AtPullHandler retryOnFail' outer') (Rejected err') v
          = Some v' ->
          rejected v' = rejected v).
Proof.
  intros Hrun.
  destruct (_run_after_push_trace retryOnFail (if outer then false else true)
              (emit (Error err) w)) as (rest & Hlog & Hrest & Hrej).
  exists (runPush_return retryOnFail outer false (emit (Error err) w)), rest.
  split; [by simpl; rewrite Hrun|]. split; [done|].
  unfold runPush_return. rewrite Hlog, Hrej. simpl.
  rewrite <- app_assoc. repeat split; try done.
  intros v r' o' e' v' Hres. simpl in Hres. simplify_eq.
  unfold runPull_caught, runPull_return, _run_after_pull, closure_tail.
  by repeat case_match.
Qed.

Lemma step_ClosureStarts retryOnFail rest w :
  running w = None -> rejected w = false ->
  queued w = retryOnFail :: rest ->
  step ClosureStarts w = Some (closure retryOnFail (set_queued rest w)).
Proof. intros Hp Hr Hq. simpl. by rewrite Hp, Hq, Hr. Qed.

Lemma step_Settles p r w :
  running w = Some p -> step (Settles r) w = resume p r w.
Proof. intros Hp. simpl. by rewrite Hp. Qed.

Lemma steps_cons l ls w :
  steps (l :: ls) w
  = match step l w with Some w' => steps ls w' | None => None end.
Proof. done. Qed.

Lemma _run_push_configured retryOnFail p w :
  push w = Some p ->
  _run_push retryOnFail w
  = suspend (AtGetChanges retryOnFail true)
      (emit (GetChangesSinceLastPushSequence (replicationIdentifier w)
               (batchSize_or_default p))
         (emit (Entered M_runPush) w)).
Proof.
  intros Hpush. unfold _run_push, runPush. simpl. by rewrite Hpush.
Qed.

(** The callback of the timer [_run] sets is [() => this.run()]: when a
    timer fires, [run()] is called with the default [retryOnFail = true]; in
    a state that is not stopped and whose queue is not full the call chains
    a further cycle and emits nothing. *)
Lemma step_TimerFires u t ts :
  timers u = t :: ts ->
  step TimerFires u = Some (run true (set_timers ts u))
  /\ (isStopped u = false -> (runQueueCount u <= 2)%Z ->
      queued (run true (set_timers ts u)) = queued u ++ [true]
      /\ runQueueCount (run true (set_timers ts u))
         = (runQueueCount u + 1)%Z
      /\ log (run true (set_timers ts u)) = log u).
Proof.
  intros Ht. split; [by simpl; rewrite Ht|]. intros Hs Hcount.
  unfold run. change (isStopped (set_timers ts u)) with (isStopped u).
  rewrite Hs. simpl. by destruct (Z.ltb_spec 2 (runQueueCount u)); [lia|].
Qed.

(** C7: in a cycle run with [retryOnFail = true] in which [push] is
    configured and [runPush()] returns [false], [_run] sets a timer of
    [retryTime] milliseconds for [run()], returns [true] (the closure does
    not complete the initial replication) and [runPull()] is not entered in
    that cycle.  The cycle ends, leaves the queue and the conditions of
    [isStopped()] as they were, and the timer is pending behind it; its
    firing, like the firing of every timer, is a call of [run()] with
    [retryOnFail = true], which chains a further cycle unless the state is
    stopped or the queue full. *)
Theorem push_failure_gates_pull (w : World) (p : ReplicationPushOptions)
    (changesResult : ChangesResult) (err : string) (rest : list bool) :
  push w = Some p ->
  running w = None ->
  rejected w = false ->
  queued w = true :: rest ->
  exists w' pushDocs,
    steps (failing_push_turns (initialReplicationComplete w) changesResult
             err) w = Some w'
    /\ log w'
       = log w
         ++ [Active true; Entered M_run]
         ++ (if initialReplicationComplete w then [RequestIdlePromise]
             else [])
         ++ [Entered M_runPush;
             GetChangesSinceLastPushSequence (replicationIdentifier w)
               (batchSize_or_default p);
             PushHandler pushDocs; Error err; SetTimeout (retryTime w);
             Active false]
    /\ timers w' = timers w ++ [retryTime w]
    /\ running w' = None
    /\ initialReplicationComplete w' = initialReplicationComplete w
    /\ (forall v, _run_after_push true false v
                  = closure_tail true true (setTimeout_run v))
    /\ queued w' = rest
    /\ runQueueCount w' = (runQueueCount w - 1)%Z
    /\ isStopped w' = isStopped w
    /\ (forall u t ts,
          timers u = t :: ts ->
          step TimerFires u = Some (run true (set_timers ts u))
          /\ (isStopped u = false -> (runQueueCount u <= 2)%Z ->
              queued (run true (set_timers ts u)) = queued u ++ [true]
              /\ runQueueCount (run true (set_timers ts u))
                 = (runQueueCount u + 1)%Z
              /\ log (run true (set_timers ts u)) = log u)).
Proof.
  intros Hpush Hp Hr Hq.
  destruct (map_alloc toPushDoc (objects w)
              (snd <$> changedDocs changesResult))
    as [h pushDocs] eqn:Halloc.
  set (w1 := emit (Entered M_run)
               (set_runCount (runCount w + 1)%Z
                  (next_active true (set_queued rest w)))).
  set (w2 := if initialReplicationComplete w
             then suspend (AtRequestIdlePromise true)
                    (emit RequestIdlePromise w1)
             else w1).
  set (w3 := emit (GetChangesSinceLastPushSequence (replicationIdentifier w)
                     (batchSize_or_default p))
               (emit (Entered M_runPush) w2)).
  set (w4 := emit (PushHandler pushDocs) (set_objects h w3)).
  set (w5 := closure_tail true true (setTimeout_run (emit (Error err) w4))).
  assert (push w2 = Some p /\ objects w2 = objects w
          /\ replicationIdentifier w2 = replicationIdentifier w)
    as (Hpush2 & Hobj2 & Hid2).
  { unfold w2. by destruct (initialReplicationComplete w). }
  assert (steps [Settles (ResolvedChanges changesResult);
                 Settles (Rejected err)]
            (_run_push true w2) = Some w5) as Htail.
  { rewrite (_run_push_configured true p) by done. rewrite Hid2.
    fold w3. cbn [steps].
    rewrite (step_Settles (AtGetChanges true true)) by done.
    cbn [resume]. unfold runPush_collected.
    change (objects (suspend _ w3)) with (objects w2).
    rewrite Hobj2, Halloc.
    rewrite (step_Settles (AtPushHandler true true changesResult pushDocs))
      by done.
    cbn [resume]. done. }
  exists w5, pushDocs. split.
  - unfold failing_push_turns. rewrite steps_cons.
    rewrite (step_ClosureStarts true rest w Hp Hr Hq).
    unfold closure, _run. cbn beta zeta.
    change (initialReplicationComplete (emit _ _))
      with (initialReplicationComplete w).
    fold w1. unfold w2 in Htail.
    destruct (initialReplicationComplete w); [|done].
    cbn [app]. rewrite steps_cons.
    rewrite (step_Settles (AtRequestIdlePromise true)) by done.
    cbn [resume]. exact Htail.
  - split_and!;
      try (intros u t ts Ht; exact (step_TimerFires u t ts Ht));
      unfold w5, closure_tail, setTimeout_run, w4, w3, w2, isStopped;
      destruct (initialReplicationComplete w) eqn:Hi; simpl;
      rewrite ?Hi; simpl; rewrite <- ?app_assoc; done.
Qed.

(** ** handleDocumentsFromRemote *)

Lemma heap_get_app_l (h os : heap) (l : loc) :
  l < length h -> heap_get (h ++ os) l = heap_get h l.
Proof. intros Hl. unfold heap_get. by rewrite lookup_app_l. Qed.

Lemma heap_get_fresh (h : heap) (o : obj) (os : heap) :
  heap_get (h ++ o :: os) (length h) = o.
Proof.
  unfold heap_get. by rewrite lookup_app_r, Nat.sub_diag by lia.
Qed.

Lemma set_prop_fresh (h : heap) (o : obj) (k : string) (v : json) :
  set_prop (h ++ [o]) (length h) k v = h ++ [<[k:=v]> o].
Proof.
  unfold set_prop.
  replace (length h) with (length h + 0) at 1 by lia.
  by rewrite alter_app_r.
Qed.

(** One pass of the loop: the clone is allocated behind the heap and
    tagged; the heap in front of it is as before. *)
Lemma tagPulledDocument_spec identifier path docsFromLocal (h : heap)
    (originalDoc : loc) :
  tagPulledDocument identifier path docsFromLocal h originalDoc
  = (h ++ [tagged_spec identifier path docsFromLocal (heap_get h originalDoc)],
     length h).
Proof.
  unfold tagPulledDocument, flatClone, tagged_spec, pulled_revision_spec.
  cbn zeta. rewrite heap_get_fresh, set_prop_fresh.
  by destruct (docsFromLocal_get _ _).
Qed.

Lemma map_alloc_tagPulledDocument identifier path docsFromLocal
    (docs : list loc) (h : heap) :
  Forall (fun doc => doc < length h) docs ->
  map_alloc (tagPulledDocument identifier path docsFromLocal) h docs
  = (h ++ ((fun doc =>
              tagged_spec identifier path docsFromLocal (heap_get h doc))
             <$> docs),
     seq (length h) (length docs)).
Proof.
  revert h. induction docs as [|doc docs IH]; intros h Hdocs;
    cbn [map_alloc fmap list_fmap length seq].
  - by rewrite app_nil_r.
  - apply Forall_cons in Hdocs as [Hdoc Hdocs].
    rewrite tagPulledDocument_spec, IH.
    + rewrite length_app, <- app_assoc. simpl.
      rewrite Nat.add_1_r. do 3 f_equal.
      apply Forall_fmap_ext. eapply Forall_impl; [exact Hdocs|].
      intros d Hd. simpl. by rewrite heap_get_app_l.
    + eapply Forall_impl; [exact Hdocs|].
      intros d Hd. simpl in *. rewrite length_app. simpl. lia.
Qed.

(** Reading the objects allocated behind [h]. *)
Lemma heap_get_allocated {A} (f : obj -> A) (os h : heap) :
  (fun l => f (heap_get (h ++ os) l)) <$> seq (length h) (length os)
  = f <$> os.
Proof.
  revert h. induction os as [|o os IH]; intros h; [done|]. simpl.
  rewrite heap_get_fresh. f_equal.
  specialize (IH (h ++ [o])).
  rewrite <- app_assoc, length_app in IH. simpl in IH.
  by rewrite Nat.add_1_r in IH.
Qed.

(** C9: every pulled document is applied to the local storage as a clone
    whose [_rev] is [(existingHeight + 1) + '-' + hash] when the storage has
    a version of the document and ['1-' + hash] otherwise, [hash] being
    [createRevisionForPulledDocument(identifier, doc)]; the clones are new
    objects and the pulled documents themselves are not changed. *)
Theorem pull_revision_tagging (w : World) (retryOnFail outer : bool)
    (result : ReplicationPullHandlerResult)
    (docsFromLocal : gmap string RxDocumentData) :
  Forall (fun doc => doc < length (objects w)) (documents result) ->
  documents result <> [] ->
  let w' :=
    handleDocumentsFromRemote_found retryOnFail outer result docsFromLocal
      w in
  let tagged doc :=
    tagged_spec (replicationIdentifier w) (primaryPath w) docsFromLocal
      (heap_get (objects w) doc) in
  log w'
  = log w
    ++ [BulkAddRevisions
          ((fun doc => _handleToStorageInstance (tagged doc))
             <$> documents result)]
  /\ objects w' = objects w ++ (tagged <$> documents result)
  /\ (forall l, l < length (objects w) ->
        heap_get (objects w') l = heap_get (objects w) l)
  /\ (forall doc, tagged doc !! "_rev"
        = Some (JStr (pulled_revision_spec (replicationIdentifier w)
                        (primaryPath w) docsFromLocal
                        (heap_get (objects w) doc)))).
Proof.
  intros Hdocs Hne w' tagged. subst w'.
  unfold handleDocumentsFromRemote_found.
  rewrite map_alloc_tagPulledDocument by done. fold tagged.
  rewrite length_seq.
  destruct (documents result) as [|doc docs] eqn:Hd; [done|].
  rewrite <- Hd. replace (0 <? length (documents result)) with true
    by (by rewrite Hd).
  simpl. repeat split.
  - do 3 f_equal.
    rewrite <- (length_fmap tagged (documents result)).
    rewrite (heap_get_allocated _handleToStorageInstance).
    by rewrite <- list_fmap_compose.
  - intros l Hl. by apply heap_get_app_l.
  - intros d. unfold tagged, tagged_spec. apply lookup_insert_eq.
Qed.

End Properties.

(** * The properties on concrete runs *)

Section Runs.
#[local] Existing Instance Demo.collaborators.

Lemma reachable_after (withPull : bool)
    (withPush : option ReplicationPushOptions) (isLive : bool)
    (ls : list label) (w : World) :
  steps ls (Demo.start withPull withPush isLive) = Some w -> reachable w.
Proof.
  intros Hs.
  by exists (Demo.options withPull withPush isLive), false, false, false,
    "id"%string, Demo.documents_heap, ls.
Qed.

(** C1: a local write with a revision that is not pull-tagged makes the
    subscriber call [run()] while the state is not stopped. *)
Lemma echo_suppression_unless_stopped_witness :
  isLocal Demo.localWrite = false
  /\ getDocumentDataOfRxChangeEvent Demo.localWrite !! "_rev"
     = Some (JStr "2-f00")
  /\ "2-f00"%string <> EmptyString
  /\ changeEventSubscriber Demo.localWrite
       (Demo.start false Demo.pushOptions true) = Some true.
Proof.
  assert ("2-f00"%string <> EmptyString) as Hne by discriminate.
  split; [reflexivity|]. split; [reflexivity|]. split; [exact Hne|].
  generalize (proj1 (echo_suppression_unless_stopped
                       (Demo.start false Demo.pushOptions true)
                       Demo.localWrite "2-f00" eq_refl eq_refl Hne)).
  vm_compute. exact (fun e => e).
Defined.

(** C1 as it is stated fails: in live mode with push, after the collection
    is destroyed and while the subscription is open, a change event that is
    not local and whose revision is present and not pull-tagged does not
    make the subscriber call [run()]. *)
Lemma stopped_subscriber_does_not_run :
  reachable Demo.destroyed_live_push
  /\ live Demo.destroyed_live_push = true
  /\ is_Some (push Demo.destroyed_live_push)
  /\ subscribed Demo.destroyed_live_push = true
  /\ isLocal Demo.localWrite = false
  /\ getDocumentDataOfRxChangeEvent Demo.localWrite !! "_rev"
     = Some (JStr "2-f00")
  /\ wasRevisionfromPullReplication
       (replicationIdentifier Demo.destroyed_live_push) "2-f00" = false
  /\ changeEventSubscriber Demo.localWrite Demo.destroyed_live_push = None
  /\ step (ChangeEvent Demo.localWrite) Demo.destroyed_live_push
     = Some Demo.destroyed_live_push.
Proof.
  split.
  { apply (reachable_after false Demo.pushOptions true [CollectionDestroyed]).
    vm_compute. reflexivity. }
  repeat split; try (vm_compute; reflexivity). by eexists.
Qed.

(** C2: the first cycle of a one-shot pull finishes without a retry. *)
Lemma initialReplicationComplete_once_witness :
  reachable Demo.pull_awaits_handler
  /\ step Demo.nothing_pulled Demo.pull_awaits_handler
     = Some (Demo.after [Demo.nothing_pulled] Demo.pull_awaits_handler)
  /\ List.filter on_initialReplicationComplete
       (log (Demo.after [Demo.nothing_pulled] Demo.pull_awaits_handler))
     = [InitialReplicationComplete true].
Proof.
  assert (reachable Demo.pull_awaits_handler) as Hreach.
  { apply (reachable_after true None false
             [ClosureStarts; Demo.no_lastPullDocument]).
    vm_compute. reflexivity. }
  assert (step Demo.nothing_pulled Demo.pull_awaits_handler
          = Some (Demo.after [Demo.nothing_pulled] Demo.pull_awaits_handler))
    as Hstep by (vm_compute; reflexivity).
  split; [exact Hreach|]. split; [exact Hstep|].
  generalize (proj1 (initialReplicationComplete_once _ _ _ Hreach Hstep)).
  vm_compute. exact (fun e => e).
Defined.

(** C2 as it is stated fails: the cycle started by the interval loop pulls
    with success, sets no retry timer and is not canceled, and
    [initialReplicationComplete] is still [false] behind it. *)
Lemma interval_cycle_does_not_complete :
  exists w,
    steps Demo.interval_schedule (Demo.start true None true) = Some w
    /\ log w
       = [Active true; Entered M_run; Entered M_runPull;
          GetLastPullDocument "rep"; PullHandler None; Error "offline";
          SetTimeout 60000; Active false;
          Active true; Entered M_run; Entered M_runPull;
          GetLastPullDocument "rep"; PullHandler None; Active false]
    /\ running w = None
    /\ canceled w = false
    /\ initialReplicationComplete w = false.
Proof.
  eexists. split; [vm_compute; reflexivity|]. by vm_compute.
Qed.

Lemma reachable_pull_in_flight : reachable Demo.pull_in_flight.
Proof.
  apply (reachable_after true None true [ClosureStarts]).
  vm_compute. reflexivity.
Qed.

(** C3: three calls of [run()] while the first cycle of a live pull is in
    flight. *)
Lemma serialized_with_two_followers_witness :
  reachable Demo.pull_in_flight
  /\ is_Some (running Demo.pull_in_flight)
  /\ steps (CallRun <$> Demo.burst) Demo.pull_in_flight
     = Some (Demo.after (CallRun <$> Demo.burst) Demo.pull_in_flight)
  /\ step ClosureStarts
       (Demo.after (CallRun <$> Demo.burst) Demo.pull_in_flight) = None
  /\ length (queued (Demo.after (CallRun <$> Demo.burst) Demo.pull_in_flight))
     <= 2.
Proof.
  assert (is_Some (running Demo.pull_in_flight)) as Hrun by by eexists.
  assert (steps (CallRun <$> Demo.burst) Demo.pull_in_flight
          = Some (Demo.after (CallRun <$> Demo.burst) Demo.pull_in_flight))
    as Hburst by (vm_compute; reflexivity).
  split; [exact reachable_pull_in_flight|].
  split; [exact Hrun|]. split; [exact Hburst|].
  destruct (serialized_with_two_followers _ _ _ reachable_pull_in_flight
              Hrun Hburst) as (_ & Hstart & Hlen & _).
  split; [exact Hstart | exact Hlen].
Defined.

(** C3 as it is stated fails: after three calls of [run()] made while one
    cycle is in flight, two more cycles execute, not one. *)
Lemma burst_runs_two_more_cycles :
  reachable Demo.pull_in_flight
  /\ is_Some (running Demo.pull_in_flight)
  /\ runCount Demo.pull_in_flight = 1%Z
  /\ forallb internal Demo.drain = true
  /\ exists w1 w2,
       steps (CallRun <$> Demo.burst) Demo.pull_in_flight = Some w1
       /\ steps Demo.drain w1 = Some w2
       /\ runCount w2 = 3%Z
       /\ length (List.filter on_initialReplicationComplete (log w2)) = 1
       /\ length (List.filter
                    (fun e =>
                       match e with Entered M_run => true | _ => false end)
                    (log w2)) = 3
       /\ ~ (runCount w2 <= runCount Demo.pull_in_flight + 1)%Z.
Proof.
  split; [exact reachable_pull_in_flight|].
  split; [by eexists|]. split; [done|]. split; [done|].
  eexists _, _. split; [vm_compute; reflexivity|].
  split; [vm_compute; reflexivity|]. by vm_compute.
Qed.

(** C4: the same burst, and the chain drained. *)
Lemma bounded_coalescing_witness :
  reachable Demo.pull_in_flight
  /\ is_Some (running Demo.pull_in_flight)
  /\ steps (CallRun <$> Demo.burst) Demo.pull_in_flight
     = Some (Demo.after (CallRun <$> Demo.burst) Demo.pull_in_flight)
  /\ forallb internal Demo.drain = true
  /\ steps Demo.drain
       (Demo.after (CallRun <$> Demo.burst) Demo.pull_in_flight)
     = Some (Demo.after Demo.drain
               (Demo.after (CallRun <$> Demo.burst) Demo.pull_in_flight))
  /\ (runCount (Demo.after Demo.drain
                  (Demo.after (CallRun <$> Demo.burst) Demo.pull_in_flight))
      <= runCount Demo.pull_in_flight + 2)%Z.
Proof.
  assert (is_Some (running Demo.pull_in_flight)) as Hrun by by eexists.
  assert (steps (CallRun <$> Demo.burst) Demo.pull_in_flight
          = Some (Demo.after (CallRun <$> Demo.burst) Demo.pull_in_flight))
    as Hburst by (vm_compute; reflexivity).
  assert (forallb internal Demo.drain = true) as Hall by reflexivity.
  assert (steps Demo.drain
            (Demo.after (CallRun <$> Demo.burst) Demo.pull_in_flight)
          = Some (Demo.after Demo.drain
                    (Demo.after (CallRun <$> Demo.burst)
                       Demo.pull_in_flight)))
    as Hdrain by (vm_compute; reflexivity).
  split; [exact reachable_pull_in_flight|].
  split; [exact Hrun|]. split; [exact Hburst|]. split; [exact Hall|].
  split; [exact Hdrain|].
  exact (proj2 (bounded_coalescing _ _ _ _ _ reachable_pull_in_flight Hrun
                  Hburst Hall Hdrain)).
Defined.

Lemma reachable_canceled_during_push : reachable Demo.canceled_during_push.
Proof.
  apply (reachable_after false Demo.pushOptions true
           [ClosureStarts; Settles (ResolvedChanges Demo.alice_changed);
            CallCancel]).
  vm_compute. reflexivity.
Qed.

(** C5: the handler resolves after the cancellation. *)
Lemma canceled_once_and_stopped_witness :
  reachable Demo.canceled_during_push
  /\ step (Settles Resolved) Demo.canceled_during_push
     = Some (Demo.after [Settles Resolved] Demo.canceled_during_push)
  /\ List.filter on_canceled
       (log (Demo.after [Settles Resolved] Demo.canceled_during_push))
     = [Canceled true]
  /\ isStopped (Demo.after [Settles Resolved] Demo.canceled_during_push)
     = true.
Proof.
  assert (step (Settles Resolved) Demo.canceled_during_push
          = Some (Demo.after [Settles Resolved] Demo.canceled_during_push))
    as Hstep by (vm_compute; reflexivity).
  split; [exact reachable_canceled_during_push|]. split; [exact Hstep|].
  destruct (canceled_once_and_stopped _ _ _ reachable_canceled_during_push
              Hstep) as (Hlog & _ & Hstopped & _).
  split.
  - generalize Hlog. vm_compute. exact (fun e => e).
  - apply Hstopped. vm_compute. reflexivity.
Defined.

(** C5 as it is stated fails: the replication is canceled while
    [push.handler] is in flight; behind [canceled$] the cycle still emits on
    [send$], [active$] and [initialReplicationComplete$]. *)
Lemma emissions_after_cancel :
  reachable Demo.canceled_during_push
  /\ canceled Demo.canceled_during_push = true
  /\ exists w,
       steps Demo.push_completes Demo.canceled_during_push = Some w
       /\ log w
          = log Demo.canceled_during_push
            ++ [Send 2; SetLastPushSequence "rep" 7; Entered M_runPush;
                GetChangesSinceLastPushSequence "rep" 5; PushHandler [];
                SetLastPushSequence "rep" 7; Active false;
                InitialReplicationComplete true]
       /\ List.filter is_emission (log w)
          = [Active true; Canceled true; Send 2; Active false;
             InitialReplicationComplete true].
Proof.
  split; [exact reachable_canceled_during_push|]. split; [done|].
  eexists. split; [vm_compute; reflexivity|]. by vm_compute.
Qed.

(** C7: the first cycle of a one-shot replication whose push fails. *)
Lemma push_failure_gates_pull_witness :
  push (Demo.start true Demo.pushOptions false)
  = Some {| batchSize := None |}
  /\ running (Demo.start true Demo.pushOptions false) = None
  /\ rejected (Demo.start true Demo.pushOptions false) = false
  /\ queued (Demo.start true Demo.pushOptions false) = [true]
  /\ exists w' pushDocs,
       steps (failing_push_turns false Demo.alice_changed "offline")
         (Demo.start true Demo.pushOptions false) = Some w'
       /\ log w'
          = [Active true; Entered M_run; Entered M_runPush;
             GetChangesSinceLastPushSequence "rep" 5; PushHandler pushDocs;
             Error "offline"; SetTimeout 60000; Active false]
       /\ timers w' = [60000%Z]
       /\ initialReplicationComplete w' = false
       /\ exists w'',
            step TimerFires w' = Some w''
            /\ queued w'' = [true]
            /\ runQueueCount w'' = 1%Z
            /\ log w'' = log w'.
Proof.
  split; [reflexivity|]. split; [reflexivity|]. split; [reflexivity|].
  split; [reflexivity|].
  destruct (push_failure_gates_pull
              (Demo.start true Demo.pushOptions false)
              {| batchSize := None |} Demo.alice_changed "offline" []
              eq_refl eq_refl eq_refl eq_refl)
    as (w' & pushDocs & Hsteps & Hlog & Htimers & _ & Hinitial & _
        & Hqueued & Hcount & Hstopped & Htimer).
  exists w', pushDocs. split; [exact Hsteps|].
  split; [exact Hlog|]. split; [exact Htimers|]. split; [exact Hinitial|].
  destruct (Htimer w' 60000%Z [] Htimers) as (Hfires & Hchains).
  destruct Hchains as (Hqueued' & Hcount' & Hlog').
  { exact Hstopped. }
  { rewrite Hcount. vm_compute. discriminate. }
  eexists. split; [exact Hfires|].
  rewrite Hqueued', Hcount', Hqueued, Hcount, Hlog'. done.
Defined.

(** C8: [push.handler] throws in the first cycle. *)
Lemma push_handler_failure_contained_witness :
  running Demo.push_awaits_handler
  = Some (AtPushHandler true true Demo.alice_changed [2])
  /\ exists w',
       step (Settles (Rejected "offline")) Demo.push_awaits_handler
       = Some w'
       /\ log w'
          = log Demo.push_awaits_handler
            ++ [Error "offline"; SetTimeout 60000; Active false]
       /\ rejected w' = false.
Proof.
  split; [reflexivity|].
  destruct (push_handler_failure_contained Demo.push_awaits_handler true
              true Demo.alice_changed [2] "offline" eq_refl)
    as (w' & rest & Hstep & Hw' & Hlog & _ & Hrej & _).
  exists w'. split; [exact Hstep|]. subst w'. split.
  - vm_compute. reflexivity.
  - exact Hrej.
Defined.

(** C9: alice and bob are pulled; the local storage has alice at height
    4. *)
Lemma pull_revision_tagging_witness :
  Forall (fun doc => doc < length (objects (Demo.start true None false)))
    (documents Demo.both_pulled)
  /\ documents Demo.both_pulled <> []
  /\ objects
       (handleDocumentsFromRemote_found true true Demo.both_pulled
          Demo.alice_stored (Demo.start true None false))
     = [Demo.alice; Demo.bob;
        <["_rev" := JStr "5-pullrep"]> Demo.alice;
        <["_rev" := JStr "1-pullrep"]> Demo.bob].
Proof.
  assert (Forall
            (fun doc => doc < length (objects (Demo.start true None false)))
            (documents Demo.both_pulled)) as Hdocs.
  { repeat constructor. }
  assert (documents Demo.both_pulled <> []) as Hne by discriminate.
  split; [exact Hdocs|]. split; [exact Hne|].
  destruct (pull_revision_tagging (Demo.start true None false) true true
              Demo.both_pulled Demo.alice_stored Hdocs Hne)
    as (_ & Hobjects & _).
  rewrite Hobjects. vm_compute. reflexivity.
Defined.

(** C10: the push options of the demo have no [batchSize]. *)
Lemma default_batch_size_witness :
  push (Demo.start false Demo.pushOptions true)
  = Some {| batchSize := None |}
  /\ (batchSize {| batchSize := None |} = None
      \/ batchSize {| batchSize := None |} = Some 0%Z)
  /\ log (runPush true true (Demo.start false Demo.pushOptions true))
     = [Entered M_runPush; GetChangesSinceLastPushSequence "rep" 5].
Proof.
  split; [reflexivity|]. split; [left; reflexivity|].
  rewrite (default_batch_size (Demo.start false Demo.pushOptions true)
             {| batchSize := None |} true true eq_refl
             (or_introl eq_refl)).
  reflexivity.
Defined.

End Runs.

(** * Further properties of the replication state *)

Section Lifecycle.
Context `{Collaborators}.

(** ** cancel *)

(** X2: [cancel()] is idempotent: a second call changes nothing and resolves
    to [false]; the first resolves to [true] exactly when the state was not
    stopped. *)
Theorem cancel_idempotent (w : World) :
  cancel (cancel w).1 = ((cancel w).1, false)
  /\ (cancel w).2 = negb (isStopped w).
Proof.
  destruct (isStopped w) eqn:Hs.
  - rewrite (cancel_stopped w) by done. simpl.
    by rewrite cancel_stopped.
  - assert (cancel w
            = (next_canceled true
                 (if subscribed w
                  then emit Unsubscribe (set_subscribed false w) else w),
               true)) as -> by (unfold cancel; by rewrite Hs).
    split; [|done]. apply cancel_stopped, canceled_isStopped.
    by destruct (subscribed w).
Qed.


(** ** Stopped states are final *)

Lemma run_frame retryOnFail w :
  active (run retryOnFail w) = active w
  /\ subscribed (run retryOnFail w) = subscribed w
  /\ destroyed (run retryOnFail w) = destroyed w
  /\ live (run retryOnFail w) = live w
  /\ timers (run retryOnFail w) = timers w
  /\ looping (run retryOnFail w) = looping w
  /\ objects (run retryOnFail w) = objects w.
Proof. unfold run. by repeat case_match. Qed.

Lemma continues_isStopped e w w' :
  continues e w w' -> isStopped w = true -> isStopped w' = true.
Proof.
  intros [] Hs. unfold isStopped in *.
  rewrite cont_destroyed0, cont_live0, cont_canceled0, cont_initial0.
  destruct e as [p|c|]; try done.
  destruct (destroyed w), (live w), (canceled w),
    (initialReplicationComplete w), c; done.
Qed.

(** X3: a stopped state stays stopped, whatever happens next: the three
    conditions of [isStopped()] are never taken back. *)
Theorem stopped_is_final (l : label) (w w' : World) :
  isStopped w = true -> step l w = Some w' -> isStopped w' = true.
Proof.
  intros Hs Hstep. destruct l; simpl in Hstep.
  - simplify_eq. by rewrite run_stopped.
  - simplify_eq. by rewrite cancel_stopped.
  - destruct (destroyed w); simplify_eq. done.
  - destruct (subscribed w); simplify_eq.
    unfold onChangeEvent, changeEventSubscriber. rewrite Hs.
    by destruct (isLocal cE).
  - destruct (timers w); simplify_eq. by rewrite run_stopped.
  - destruct (looping w); simplify_eq. unfold onInterval. by rewrite Hs.
  - destruct (running w) eqn:Hp; [done|].
    destruct (queued w) as [|retryOnFail rest] eqn:Hq; [done|].
    destruct (rejected w) eqn:Hr; simplify_eq.
    destruct (step_closure_goes_on retryOnFail rest w) as (e & He & _).
    by eapply continues_isStopped.
  - destruct (running w) as [p|] eqn:Hp; [|done].
    apply goes_on_resume in Hstep as (e & He & _).
    by eapply continues_isStopped.
Qed.

(** ** The queue counter *)

(** X4: in every state the replication can be in, [runQueueCount] lies
    between 0 and 3 and counts the closures of the chain that have not
    finished (one more once a closure has thrown), and the value of
    [active] tells whether a closure is executing (or has thrown). *)
Theorem runQueueCount_counts_closures (w : World) :
  reachable w ->
  (0 <= runQueueCount w <= 3)%Z
  /\ runQueueCount w = (pending w + (if rejected w then 1 else 0))%Z
  /\ active w = bool_decide (is_Some (running w)) || rejected w.
Proof.
  intros [Hcount Hbound Hactive _ _ _ _]%reachable_invariant.
  repeat split; try done.
  rewrite Hcount. unfold pending.
  destruct (running w), (rejected w); lia.
Qed.

(** ** The subscription *)

Lemma cancel_subscription w :
  subscribed (cancel w).1 = false \/ cancel w = (w, false).
Proof.
  unfold cancel. destruct (isStopped w); [by right|]. left.
  destruct (subscribed w) eqn:Hsub; simpl; [done | exact Hsub].
Qed.

(** A canceled state has no open subscription. *)
Lemma step_subscription l w w' :
  step l w = Some w' ->
  (canceled w = true -> subscribed w = false) ->
  canceled w' = true -> subscribed w' = false.
Proof.
  intros Hstep Hw. destruct l; simpl in Hstep.
  - simplify_eq.
    destruct (run_unchanged retryOnFail w) as (_ & -> & _).
    by destruct (run_frame retryOnFail w) as (_ & -> & _).
  - simplify_eq. intros Hc.
    destruct (cancel_subscription w) as [Hsub | Heq]; [done|].
    rewrite Heq in *. auto.
  - destruct (destroyed w); simplify_eq. done.
  - destruct (subscribed w) eqn:Hsub; simplify_eq. unfold onChangeEvent.
    repeat case_match; try (intros Hc; by specialize (Hw Hc)).
    destruct (run_unchanged b w) as (_ & -> & _).
    intros Hc. by specialize (Hw Hc).
  - destruct (timers w); simplify_eq.
    destruct (run_unchanged true (set_timers l w)) as (_ & -> & _).
    by destruct (run_frame true (set_timers l w)) as (_ & -> & _).
  - destruct (looping w); simplify_eq. unfold onInterval.
    case_match; [done|].
    destruct (run_unchanged false w) as (_ & -> & _).
    by destruct (run_frame false w) as (_ & -> & _).
  - destruct (running w) eqn:Hp; [done|].
    destruct (queued w) as [|retryOnFail rest] eqn:Hq; [done|].
    destruct (rejected w) eqn:Hr; simplify_eq.
    destruct (step_closure_goes_on retryOnFail rest w) as (e & [] & _).
    by rewrite cont_canceled0, cont_subscribed0.
  - destruct (running w) as [p|] eqn:Hp; [|done].
    apply goes_on_resume in Hstep as (e & [] & _).
    by rewrite cont_canceled0, cont_subscribed0.
Qed.

Lemma steps_subscription ls w w' :
  steps ls w = Some w' ->
  (canceled w = true -> subscribed w = false) ->
  canceled w' = true -> subscribed w' = false.
Proof.
  revert w. induction ls as [|l ls IH]; simpl; intros w Hs Hw.
  - by simplify_eq.
  - destruct (step l w) eqn:Hl; [|done]. eauto using step_subscription.
Qed.

(** X5: once the replication is canceled its subscription to the change
    stream is closed: no change event reaches the subscriber any more. *)
Theorem canceled_is_unsubscribed (w : World) (cE : RxChangeEvent) :
  reachable w ->
  canceled w = true ->
  subscribed w = false /\ step (ChangeEvent cE) w = None.
Proof.
  intros (o & multiInstance & isDestroyed & dev & path & h & ls & Hs) Hc.
  assert (subscribed w = false) as Hsub.
  { eapply steps_subscription; [exact Hs| |exact Hc].
    destruct (replicateRxCollection_started o multiInstance isDestroyed dev
                path h).
    congruence. }
  split; [done|]. simpl. by rewrite Hsub.
Qed.

End Lifecycle.

(** ** active and runCount *)

Section Active.
Context `{Collaborators}.

Lemma filter_active_body body :
  forallb of_body body = true -> List.filter on_active body = [].
Proof.
  induction body as [|e body IH]; [done|]. simpl.
  intros [He Hb]%andb_true_iff. rewrite IH by done. by destruct e.
Qed.

Lemma cycles_done_snoc n :
  cycles_done n ++ [Active true; Active false] = cycles_done (S n).
Proof. induction n as [|n IH]; [done|]. simpl in *. by rewrite IH. Qed.

Lemma alternates_continues e w w' :
  active w = true -> alternates w -> continues e w w' -> alternates w'.
Proof.
  intros Hact (n & Hlog & Hcount) [].
  destruct cont_log0 as (body & Hbody & Hlog').
  rewrite Hact in *.
  destruct e as [p|c|].
  - exists n. rewrite cont_active0, cont_runCount0, Hlog'.
    rewrite !List.filter_app, (filter_active_body body) by done.
    simpl. by rewrite !app_nil_r.
  - exists (S n). rewrite cont_active0, cont_runCount0, Hlog'.
    rewrite !List.filter_app, (filter_active_body body), Hlog by done.
    split; [|lia]. rewrite app_nil_r, <- cycles_done_snoc, <- app_assoc.
    by destruct c.
  - exists n. rewrite cont_active0, cont_runCount0, Hlog'.
    rewrite !List.filter_app, (filter_active_body body) by done.
    simpl. by rewrite !app_nil_r.
Qed.

Lemma cancel_active w :
  active (cancel w).1 = active w /\ runCount (cancel w).1 = runCount w
  /\ List.filter on_active (log (cancel w).1) = List.filter on_active (log w).
Proof.
  unfold cancel. repeat case_match; simpl; rewrite ?List.filter_app; simpl;
    by rewrite ?app_nil_r.
Qed.

Lemma alternates_run retryOnFail w :
  alternates w -> alternates (run retryOnFail w).
Proof.
  intros (n & Hlog & Hcount). exists n.
  destruct (run_unchanged retryOnFail w) as (_ & _ & -> & _ & -> & _).
  by destruct (run_frame retryOnFail w) as (-> & _).
Qed.

Lemma alternates_step l w w' :
  invariant w -> alternates w -> step l w = Some w' -> alternates w'.
Proof.
  intros Hinv Halt Hstep. destruct l; simpl in Hstep.
  - simplify_eq. by apply alternates_run.
  - simplify_eq. destruct Halt as (n & Hlog & Hcount). exists n.
    by destruct (cancel_active w) as (-> & -> & ->).
  - by destruct (destroyed w); simplify_eq.
  - destruct (subscribed w); simplify_eq. unfold onChangeEvent.
    repeat case_match; auto using alternates_run.
  - destruct (timers w); simplify_eq. by apply alternates_run.
  - destruct (looping w); simplify_eq. unfold onInterval.
    case_match; auto using alternates_run.
  - destruct (running w) eqn:Hp; [done|].
    destruct (queued w) as [|retryOnFail rest] eqn:Hq; [done|].
    destruct (rejected w) eqn:Hr; simplify_eq.
    destruct (step_closure_goes_on retryOnFail rest w) as (e & He & _).
    eapply alternates_continues; [| |exact He]; [done|].
    destruct Hinv as [_ _ Hact _ _ _ _]. rewrite Hp, Hr in Hact.
    change (active w = false) in Hact.
    destruct Halt as (n & Hlog & Hcount). rewrite Hact in *.
    exists n. simpl. rewrite List.filter_app, Hlog. simpl.
    split; [by rewrite !app_nil_r | lia].
  - destruct (running w) as [p|] eqn:Hp; [|done].
    apply goes_on_resume in Hstep as (e & He & _).
    eapply alternates_continues; [|done|exact He].
    destruct Hinv as [_ _ Hact _ _ _ _]. rewrite Hp in Hact.
    exact Hact.
Qed.

Lemma alternates_steps ls w w' :
  invariant w -> alternates w -> steps ls w = Some w' -> alternates w'.
Proof.
  revert w. induction ls as [|l ls IH]; simpl; intros w Hinv Halt Hs.
  - by simplify_eq.
  - destruct (step l w) eqn:Hl; [|done].
    eauto using alternates_step, invariant_step.
Qed.

(** X13: the values pushed into [active$] alternate, [true] first: every
    cycle announces its start and its end before the next one starts, and
    [runCount] is the number of cycles that have started. *)
Theorem active_alternates (w : World) :
  reachable w ->
  exists n,
    List.filter on_active (log w)
    = cycles_done n ++ (if active w then [Active true] else [])
    /\ runCount w = (Z.of_nat n + (if active w then 1 else 0))%Z.
Proof.
  intros (o & multiInstance & isDestroyed & dev & path & h & ls & Hs).
  eapply alternates_steps;
    [apply invariant_replicateRxCollection| |exact Hs].
  exists 0.
  destruct (replicateRxCollection_started o multiInstance isDestroyed dev
              path h).
  rewrite start_log0, start_runCount0, start_active0.
  by destruct (opt_waitForLeadership o && multiInstance).
Qed.

End Active.

(** ** Cycles that do not retry *)

Section NoRetry.
Context `{Collaborators}.

Create Rewrite HintDb timers.

Lemma timers_closure_tail retryOnFail willRetry w :
  timers (closure_tail retryOnFail willRetry w) = timers w.
Proof. unfold closure_tail. simpl. by case_match. Qed.

#[local] Hint Rewrite timers_closure_tail : timers.

(** Closes the goal [timers (f false .. w) = timers w] once [f] is
    unfolded. *)
Ltac same_timers :=
  simpl; repeat case_match; simpl;
  repeat (autorewrite with timers; simpl); try done.

Lemma timers__run_after_pull ok w :
  timers (_run_after_pull false ok w) = timers w.
Proof. unfold _run_after_pull. rewrite andb_false_r. same_timers. Qed.

#[local] Hint Rewrite timers__run_after_pull : timers.

Lemma timers_runPull_return outer ok w :
  timers (runPull_return false outer ok w) = timers w.
Proof. unfold runPull_return. same_timers. Qed.

#[local] Hint Rewrite timers_runPull_return : timers.

Lemma timers_runPull outer w : timers (runPull false outer w) = timers w.
Proof. unfold runPull, throw, suspend. same_timers. Qed.

#[local] Hint Rewrite timers_runPull : timers.

Lemma timers__run_pull w : timers (_run_pull false w) = timers w.
Proof. unfold _run_pull. same_timers. Qed.

#[local] Hint Rewrite timers__run_pull : timers.

Lemma timers__run_after_push ok w :
  timers (_run_after_push false ok w) = timers w.
Proof. unfold _run_after_push. rewrite andb_false_r. same_timers. Qed.

#[local] Hint Rewrite timers__run_after_push : timers.

Lemma timers_runPush_return outer ok w :
  timers (runPush_return false outer ok w) = timers w.
Proof. unfold runPush_return. same_timers. Qed.

#[local] Hint Rewrite timers_runPush_return : timers.

Lemma timers_runPush retryOnFail outer w :
  timers (runPush retryOnFail outer w) = timers w.
Proof. unfold runPush, throw, suspend. same_timers. Qed.

#[local] Hint Rewrite timers_runPush : timers.

Lemma timers__run_push w : timers (_run_push false w) = timers w.
Proof. unfold _run_push. same_timers. Qed.

#[local] Hint Rewrite timers__run_push : timers.

Lemma timers_closure w : timers (closure false w) = timers w.
Proof. unfold closure, _run, suspend. same_timers. Qed.

Lemma timers_runPull_written outer result w :
  timers (runPull_written false outer result w) = timers w.
Proof. unfold runPull_written, suspend. same_timers. Qed.

#[local] Hint Rewrite timers_runPull_written : timers.

Lemma timers_resume p r w w' :
  retryOnFail_of p = false -> resume p r w = Some w' -> timers w' = timers w.
Proof.
  intros Hp Hres. destruct p, r; simpl in Hp, Hres; simplify_eq;
    unfold runPush_collected, runPush_pushed, runPush_caught,
      runPush_persisted, runPull_loaded, runPull_caught, runPull_pulled,
      handleDocumentsFromRemote_found, handleDocumentsFromRemote,
      runPull_persisted, throw, suspend;
    same_timers.
Qed.

(** X6: a cycle run with [retryOnFail = false] (the cycles of the interval
    loop) never sets a retry timer, whatever its handlers do: none of its
    turns changes the timers. *)
Theorem no_retry_sets_no_timer (l : label) (w w' : World) :
  cycle_of_step l w = Some false ->
  step l w = Some w' ->
  timers w' = timers w.
Proof.
  intros Hcycle Hstep. destruct l; try done; simpl in Hcycle, Hstep.
  - destruct (running w); [done|].
    destruct (queued w) as [|retryOnFail rest]; [done|].
    simpl in Hcycle. injection Hcycle as ->.
    destruct (rejected w); simplify_eq. by rewrite timers_closure.
  - destruct (running w) as [p|]; [|done].
    simpl in Hcycle. injection Hcycle as Hp.
    by eapply timers_resume.
Qed.

End NoRetry.

(** ** runPull *)

Section Pull.
Context `{Collaborators}.

Lemma closure_tail_effect retryOnFail willRetry w :
  log (closure_tail retryOnFail willRetry w)
  = log w ++ [Active false]
    ++ (if retryOnFail && negb willRetry
           && negb (initialReplicationComplete w)
        then [InitialReplicationComplete true] else [])
  /\ timers (closure_tail retryOnFail willRetry w) = timers w
  /\ objects (closure_tail retryOnFail willRetry w) = objects w
  /\ running (closure_tail retryOnFail willRetry w) = None.
Proof.
  unfold closure_tail. simpl.
  destruct (retryOnFail && negb willRetry
            && negb (initialReplicationComplete w)); simpl;
    by rewrite <- ?app_assoc, ?app_nil_r.
Qed.

(** An invocation of [runPull] returns [false]. *)
Lemma runPull_return_false retryOnFail outer w :
  log (runPull_return retryOnFail outer false w)
  = log w ++ after_failed_pull retryOnFail outer w
  /\ timers (runPull_return retryOnFail outer false w)
     = timers w ++ (if outer && retryOnFail then [retryTime w] else [])
  /\ objects (runPull_return retryOnFail outer false w) = objects w
  /\ running (runPull_return retryOnFail outer false w) = None.
Proof.
  unfold runPull_return, _run_after_pull, after_failed_pull, closure_tail.
  destruct outer, retryOnFail, (initialReplicationComplete w) eqn:Hi;
    simpl; rewrite ?Hi; simpl; by rewrite <- ?app_assoc, ?app_nil_r.
Qed.

(** An invocation of [runPull] returns [true]. *)
Lemma runPull_return_true retryOnFail outer w :
  log (runPull_return retryOnFail outer true w)
  = log w ++ [Active false]
    ++ (if retryOnFail && negb (initialReplicationComplete w)
        then [InitialReplicationComplete true] else [])
  /\ timers (runPull_return retryOnFail outer true w) = timers w
  /\ objects (runPull_return retryOnFail outer true w) = objects w
  /\ running (runPull_return retryOnFail outer true w) = None.
Proof.
  unfold runPull_return, _run_after_pull.
  destruct outer; cbn [negb andb];
    destruct (closure_tail_effect retryOnFail false w)
      as (-> & -> & -> & ->);
    by rewrite andb_true_r.
Qed.

(** X7: when [pull.handler] throws, the error goes to [error$] and nothing
    is received, stored or checkpointed.  A retry timer is set only when the
    failing call is the first of the cycle and the cycle retries; when a
    later page of a paginated pull fails, no retry is set and the cycle ends
    like a successful one. *)
Theorem pull_handler_failure (w : World) (retryOnFail outer : bool)
    (err : string) :
  running w = Some (AtPullHandler retryOnFail outer) ->
  exists w',
    step (Settles (Rejected err)) w = Some w'
    /\ log w' = log w ++ Error err :: after_failed_pull retryOnFail outer w
    /\ timers w'
       = timers w ++ (if outer && retryOnFail then [retryTime w] else [])
    /\ objects w' = objects w
    /\ running w' = None.
Proof.
  intros Hrun. eexists. split; [by simpl; rewrite Hrun|].
  cbn [resume]. unfold runPull_caught.
  destruct (runPull_return_false retryOnFail outer (emit (Error err) w))
    as (-> & -> & -> & ->).
  simpl. by rewrite <- app_assoc.
Qed.

(** The validation of dev-mode accepts a batch exactly when every document
    of it, without its [_deleted] flag, validates. *)
Lemma validate_pulled_None (h : heap) (docs : list loc) :
  validate_pulled h docs = None
  <-> Forall
        (fun doc => schema_validate (delete "_deleted" (heap_get h doc))
                    = None)
        docs.
Proof.
  unfold validate_pulled. induction docs as [|doc docs IH]; simpl.
  - split; [constructor | done].
  - destruct (schema_validate _) eqn:Hv; simpl.
    + split; [done|]. intros [Hd _]%Forall_cons. congruence.
    + rewrite IH. split; [by constructor|]. by intros [_ ?]%Forall_cons.
Qed.

(** X11: in dev-mode one document that does not validate rejects the whole
    batch: the error of the first such document goes to [error$], no
    document of the batch is stored or received, and [runPull()] returns
    [false]. *)
Theorem invalid_document_rejects_batch (w : World)
    (retryOnFail outer : bool) (result : ReplicationPullHandlerResult) :
  running w = Some (AtPullHandler retryOnFail outer) ->
  devMode w = true ->
  Exists
    (fun doc =>
       schema_validate (delete "_deleted" (heap_get (objects w) doc))
       <> None)
    (documents result) ->
  exists w' err,
    step (Settles (ResolvedPull result)) w = Some w'
    /\ validate_pulled (objects w) (documents result) = Some err
    /\ log w' = log w ++ Error err :: after_failed_pull retryOnFail outer w
    /\ objects w' = objects w
    /\ running w' = None.
Proof.
  intros Hrun Hdev Hinvalid.
  destruct (validate_pulled (objects w) (documents result)) as [err|]
    eqn:Hv.
  2: { apply validate_pulled_None in Hv.
       apply Exists_exists in Hinvalid as (doc & Hin & Hdoc).
       rewrite Forall_forall in Hv. by specialize (Hv doc Hin). }
  eexists _, err. split; [by simpl; rewrite Hrun|]. split; [done|].
  cbn [resume]. unfold runPull_pulled. cbv zeta. rewrite Hdev, Hv.
  destruct (documents result) as [|doc docs] eqn:Hd.
  { by apply Exists_nil in Hinvalid. }
  cbn [length Nat.eqb].
  destruct (runPull_return_false retryOnFail outer (emit (Error err) w))
    as (-> & _ & -> & ->).
  simpl. by rewrite <- app_assoc.
Qed.

(** X8: the result of [pull.handler] is dropped when the state has been
    stopped in the meantime: nothing is stored, received or checkpointed, no
    retry is set, and [runPull()] returns [true], so that a cycle run with
    [retryOnFail] completes the initial replication. *)
Theorem stopped_pull_drops_result (w : World) (retryOnFail outer : bool)
    (result : ReplicationPullHandlerResult) :
  running w = Some (AtPullHandler retryOnFail outer) ->
  isStopped w = true ->
  (devMode w = true ->
   validate_pulled (objects w) (documents result) = None) ->
  exists w',
    step (Settles (ResolvedPull result)) w = Some w'
    /\ log w'
       = log w ++ [Active false]
         ++ (if retryOnFail && negb (initialReplicationComplete w)
             then [InitialReplicationComplete true] else [])
    /\ timers w' = timers w
    /\ objects w' = objects w
    /\ running w' = None.
Proof.
  intros Hrun Hs Hvalid. eexists. split; [by simpl; rewrite Hrun|].
  cbn [resume]. unfold runPull_pulled. cbv zeta.
  assert ((if devMode w
           then validate_pulled (objects w) (documents result)
           else None) = None) as ->.
  { destruct (devMode w); auto. }
  rewrite Hs.
  replace (if length (documents result) =? 0
           then runPull_return retryOnFail outer true w
           else runPull_return retryOnFail outer true w)
    with (runPull_return retryOnFail outer true w) by by case_match.
  apply runPull_return_true.
Qed.

(** X9: a paginated pull stops at the page it has written when the state
    is stopped: [runPull()] is entered once more and returns at once,
    [pull.handler] is not called again and no retry is set. *)
Theorem stopped_pull_ends_pagination (w : World) (retryOnFail outer : bool)
    (result : ReplicationPullHandlerResult) :
  running w = Some (AtSetLastPullDocument retryOnFail outer result) ->
  isStopped w = true ->
  pull w = true ->
  exists w',
    step (Settles Resolved) w = Some w'
    /\ log w'
       = log w
         ++ (if hasMoreDocuments result then [Entered M_runPull] else [])
         ++ [Active false]
         ++ (if retryOnFail && negb (initialReplicationComplete w)
             then [InitialReplicationComplete true] else [])
    /\ timers w' = timers w
    /\ running w' = None.
Proof.
  intros Hrun Hs Hpull. eexists. split; [by simpl; rewrite Hrun|].
  cbn [resume]. unfold runPull_persisted.
  destruct (hasMoreDocuments result).
  - unfold runPull. cbv zeta. simpl. rewrite Hpull. simpl.
    change (isStopped (emit (Entered M_runPull) w)) with (isStopped w).
    rewrite Hs.
    destruct (runPull_return_false retryOnFail false
                (emit (Entered M_runPull) w)) as (-> & -> & _ & ->).
    unfold after_failed_pull. simpl.
    rewrite andb_true_r, app_nil_r, <- app_assoc. done.
  - destruct (runPull_return_true retryOnFail outer w)
      as (-> & -> & _ & ->).
    done.
Qed.

End Pull.

(** ** Documents on their way out and in *)

Section Documents.
Context `{Collaborators}.

Lemma delete_prop_fresh (h : heap) (o : obj) (k : string) :
  delete_prop (h ++ [o]) (length h) k = h ++ [delete k o].
Proof.
  unfold delete_prop.
  replace (length h) with (length h + 0) at 1 by lia.
  by rewrite alter_app_r.
Qed.

(** [xs.map(f)] for an [f] that clones the object [src x] and changes the
    clone by [g]: the clones follow behind the heap, in order. *)
Lemma map_alloc_clones {A} (f : heap -> A -> heap * loc) (src : A -> loc)
    (g : obj -> obj) :
  (forall h x, f h x = (h ++ [g (heap_get h (src x))], length h)) ->
  forall (xs : list A) (h : heap),
    Forall (fun x => src x < length h) xs ->
    map_alloc f h xs
    = (h ++ ((fun x => g (heap_get h (src x))) <$> xs),
       seq (length h) (length xs)).
Proof.
  intros Hf xs. induction xs as [|x xs IH]; intros h Hxs;
    cbn [map_alloc fmap list_fmap length seq].
  - by rewrite app_nil_r.
  - apply Forall_cons in Hxs as [Hx Hxs].
    rewrite Hf, IH.
    + rewrite length_app, <- app_assoc. simpl.
      rewrite Nat.add_1_r. do 3 f_equal.
      apply Forall_fmap_ext. eapply Forall_impl; [exact Hxs|].
      intros y Hy. simpl. by rewrite heap_get_app_l.
    + eapply Forall_impl; [exact Hxs|].
      intros y Hy. simpl in *. rewrite length_app. simpl. lia.
Qed.

Lemma toPushDoc_clone (h : heap) (row : PushChangeRow) :
  toPushDoc h row = (h ++ [wire_doc (heap_get h (row_doc row))], length h).
Proof.
  unfold toPushDoc, flatClone, hasOwnProperty, wire_doc. cbn zeta.
  rewrite heap_get_fresh.
  destruct (heap_get h (row_doc row) !! "_deleted") as [v|] eqn:Hd.
  - rewrite bool_decide_eq_true_2 by eauto.
    by rewrite !delete_prop_fresh.
  - rewrite bool_decide_eq_false_2 by (by intros [? ?]).
    by rewrite set_prop_fresh, !delete_prop_fresh.
Qed.

(** X1: the documents handed to [push.handler] are new objects, one per
    changed row and in the order of the rows: clones of the local documents
    without [_rev] and [_attachments], with [_deleted] as the local document
    has it or [false] when it has none, and every other property as it is.
    The local documents are not changed. *)
Theorem push_sends_wire_documents (w : World) (retryOnFail outer : bool)
    (changesResult : ChangesResult) :
  Forall (fun row => row_doc row.2 < length (objects w))
    (changedDocs changesResult) ->
  objects (runPush_collected retryOnFail outer changesResult w)
  = objects w
    ++ ((fun row => wire_doc (heap_get (objects w) (row_doc row.2)))
          <$> changedDocs changesResult)
  /\ log (runPush_collected retryOnFail outer changesResult w)
     = log w
       ++ [PushHandler
             (seq (length (objects w))
                (length (changedDocs changesResult)))]
  /\ (forall doc,
        wire_doc doc !! "_rev" = None
        /\ wire_doc doc !! "_attachments" = None
        /\ wire_doc doc !! "_deleted"
           = Some (default (JBool false) (doc !! "_deleted"))
        /\ (forall k : string,
              k <> "_rev"%string -> k <> "_attachments"%string ->
              k <> "_deleted"%string ->
              wire_doc doc !! k = doc !! k)).
Proof.
  intros Hrows. unfold runPush_collected.
  rewrite (map_alloc_clones toPushDoc row_doc wire_doc toPushDoc_clone).
  2: { apply Forall_fmap. eapply Forall_impl; [exact Hrows|]. done. }
  simpl. rewrite length_fmap, <- list_fmap_compose.
  split; [done|]. split; [done|].
  intros doc. unfold wire_doc.
  destruct (doc !! "_deleted") as [v|] eqn:Hd; simpl.
  - repeat split.
    + by rewrite lookup_delete_ne, lookup_delete_eq.
    + by rewrite lookup_delete_eq.
    + by rewrite !lookup_delete_ne.
    + intros k ? ? ?. by rewrite !lookup_delete_ne.
  - repeat split.
    + by rewrite lookup_delete_ne, lookup_delete_eq.
    + by rewrite lookup_delete_eq.
    + by rewrite !lookup_delete_ne, lookup_insert_eq.
    + intros k ? ? ?. by rewrite !lookup_delete_ne, lookup_insert_ne.
Qed.

(** [handleDocumentsFromRemote] with a batch that is not empty. *)
Lemma handleDocumentsFromRemote_found_effect (w : World)
    (retryOnFail outer : bool) (result : ReplicationPullHandlerResult)
    (docsFromLocal : gmap string RxDocumentData) :
  Forall (fun doc => doc < length (objects w)) (documents result) ->
  documents result <> [] ->
  handleDocumentsFromRemote_found retryOnFail outer result docsFromLocal w
  = suspend (AtBulkAddRevisions retryOnFail outer result)
      (emit
         (BulkAddRevisions
            ((fun doc =>
                _handleToStorageInstance
                  (tagged_spec (replicationIdentifier w) (primaryPath w)
                     docsFromLocal (heap_get (objects w) doc)))
               <$> documents result))
         (set_objects
            (objects w
             ++ ((fun doc =>
                    tagged_spec (replicationIdentifier w) (primaryPath w)
                      docsFromLocal (heap_get (objects w) doc))
                   <$> documents result))
            w)).
Proof.
  intros Hdocs Hne. unfold handleDocumentsFromRemote_found.
  rewrite map_alloc_tagPulledDocument by done.
  rewrite length_seq.
  destruct (documents result) as [|doc docs] eqn:Hd; [done|].
  rewrite <- Hd. replace (0 <? length (documents result)) with true
    by (by rewrite Hd).
  do 3 f_equal.
  set (tagged := fun doc0 => tagged_spec _ _ _ _).
  rewrite <- (length_fmap tagged (documents result)).
  rewrite (heap_get_allocated _handleToStorageInstance).
  by rewrite <- list_fmap_compose.
Qed.

(** X12: a pulled batch is written to the storage before it is announced:
    [bulkAddRevisions] receives the tagged clones, then [received$] emits
    the pulled documents themselves, in their order and unchanged, and the
    last document of the batch is persisted as the checkpoint. *)
Theorem pulled_batch_is_written_then_received (w : World)
    (retryOnFail outer : bool) (result : ReplicationPullHandlerResult)
    (docsFromLocal : gmap string RxDocumentData) (newLatestDocument : loc) :
  running w = Some (AtFindDocumentsById retryOnFail outer result) ->
  Forall (fun doc => doc < length (objects w)) (documents result) ->
  lastOfArray (documents result) = Some newLatestDocument ->
  exists w',
    steps [Settles (ResolvedFound docsFromLocal); Settles Resolved] w
    = Some w'
    /\ log w'
       = log w
         ++ [BulkAddRevisions
               ((fun doc =>
                   _handleToStorageInstance
                     (tagged_spec (replicationIdentifier w) (primaryPath w)
                        docsFromLocal (heap_get (objects w) doc)))
                  <$> documents result)]
         ++ (Received <$> documents result)
         ++ [SetLastPullDocument (replicationIdentifier w)
               newLatestDocument]
    /\ running w' = Some (AtSetLastPullDocument retryOnFail outer result)
    /\ Forall
         (fun doc => heap_get (objects w') doc = heap_get (objects w) doc)
         (documents result).
Proof.
  intros Hrun Hdocs Hlast.
  assert (documents result <> []) as Hne.
  { intros Hnil. by rewrite Hnil in Hlast. }
  eexists. split.
  - rewrite steps_cons, (step_Settles _ _ _ Hrun). cbn [resume].
    rewrite handleDocumentsFromRemote_found_effect by done.
    rewrite steps_cons.
    rewrite (step_Settles (AtBulkAddRevisions retryOnFail outer result))
      by done.
    cbn [resume steps]. unfold runPull_written. cbv zeta.
    change (lastOfArray (documents result)) with (last (documents result))
      in *.
    rewrite Hlast. reflexivity.
  - simpl. rewrite <- !app_assoc. repeat split.
    eapply Forall_impl; [exact Hdocs|].
    intros doc Hdoc. simpl. by rewrite heap_get_app_l.
Qed.

End Documents.

(** ** The controller and the drain of the push *)

Section Controller.
Context `{Collaborators}.



(** X14: when [push.handler] resolves, the pushed documents are emitted on
    [send$] in their order and then the checkpoint is persisted with the
    [lastSequence] of the batch; after a batch that was not empty
    [runPush()] asks the change collector for the next batch. *)
Theorem push_success_persists_then_drains (w : World)
    (p : ReplicationPushOptions) (retryOnFail outer : bool)
    (changesResult : ChangesResult) (pushDocs : list loc) :
  running w = Some (AtPushHandler retryOnFail outer changesResult pushDocs) ->
  push w = Some p ->
  changedDocs changesResult <> [] ->
  exists w',
    steps [Settles Resolved; Settles Resolved] w = Some w'
    /\ log w'
       = log w
         ++ (Send <$> pushDocs)
         ++ [SetLastPushSequence (replicationIdentifier w)
               (lastSequence changesResult);
             Entered M_runPush;
             GetChangesSinceLastPushSequence (replicationIdentifier w)
               (batchSize_or_default p)]
    /\ running w' = Some (AtGetChanges retryOnFail false).
Proof.
  intros Hrun Hpush Hne. eexists. split.
  - rewrite steps_cons, (step_Settles _ _ _ Hrun). cbn [resume].
    unfold runPush_pushed. cbv zeta. rewrite steps_cons.
    rewrite (step_Settles
               (AtSetLastPushSequence retryOnFail outer changesResult))
      by done.
    cbn [resume steps]. unfold runPush_persisted.
    destruct (changedDocs changesResult) as [|row rows];
      [exfalso; by apply Hne|].
    cbn [length Nat.eqb negb]. unfold runPush. cbv zeta. simpl.
    rewrite Hpush. reflexivity.
  - simpl. by rewrite <- !app_assoc.
Qed.

End Controller.

(** ** The options, the interval loop and the subscription *)

Section Options.
Context `{Collaborators}.

Lemma run_options retryOnFail w :
  same_options w (run retryOnFail w)
  /\ looping (run retryOnFail w) = looping w.
Proof. unfold run, same_options. by repeat case_match. Qed.

Lemma cancel_options w :
  same_options w (cancel w).1 /\ looping (cancel w).1 = looping w.
Proof. unfold cancel, same_options. by repeat case_match. Qed.

Lemma continues_options e w w' :
  continues e w w' -> same_options w w' /\ looping w' = looping w.
Proof. intros []. by repeat split. Qed.

Lemma step_options l w w' :
  step l w = Some w' ->
  same_options w w' /\ (looping w' = true -> looping w = true).
Proof.
  intros Hstep. destruct l; simpl in Hstep.
  - simplify_eq. destruct (run_options retryOnFail w) as [? ->]. done.
  - simplify_eq. destruct (cancel_options w) as [? ->]. done.
  - destruct (destroyed w); simplify_eq. by repeat split.
  - destruct (subscribed w); simplify_eq. unfold onChangeEvent.
    repeat case_match; try by repeat split.
    destruct (run_options b w) as [? ->]. done.
  - destruct (timers w) as [|t rest]; simplify_eq.
    destruct (run_options true (set_timers rest w)) as [? ->]. done.
  - destruct (looping w) eqn:Hloop; simplify_eq. unfold onInterval.
    case_match; [by repeat split|].
    destruct (run_options false w) as [? ->]. done.
  - destruct (running w) eqn:Hp; [done|].
    destruct (queued w) as [|retryOnFail rest] eqn:Hq; [done|].
    destruct (rejected w) eqn:Hr; simplify_eq.
    destruct (step_closure_goes_on retryOnFail rest w) as (e & He & _).
    apply continues_options in He as [? ->]. done.
  - destruct (running w) as [p|] eqn:Hp; [|done].
    apply goes_on_resume in Hstep as (e & He & _).
    apply continues_options in He as [? ->]. done.
Qed.

Lemma steps_options ls w w' :
  steps ls w = Some w' ->
  same_options w w' /\ (looping w' = true -> looping w = true).
Proof.
  revert w. induction ls as [|l ls IH]; simpl; intros w Hs.
  - simplify_eq. by repeat split.
  - destruct (step l w) as [w1|] eqn:Hl; [|done].
    apply step_options in Hl as [(? & ? & ? & ? & ? & ?) Hloop].
    apply IH in Hs as [(? & ? & ? & ? & ? & ?) Hloop'].
    split; [|by auto]. repeat split; congruence.
Qed.

(** X21: the interval loop runs only in live mode with [pull], the change
    stream is subscribed only in live mode with [push]; a replication that
    is not live is woken neither by the interval nor by a write. *)
Theorem loop_and_subscription_need_live (w : World) :
  reachable w ->
  (looping w = true -> live w = true /\ pull w = true)
  /\ (subscribed w = true -> live w = true /\ is_Some (push w))
  /\ (live w = false ->
      step IntervalElapsed w = None
      /\ forall cE, step (ChangeEvent cE) w = None).
Proof.
  intros Hreach.
  assert (looping w = true -> live w = true /\ pull w = true) as Hloop.
  { destruct Hreach
      as (o & multiInstance & isDestroyed & dev & path & h & ls & Hs).
    apply steps_options in Hs as [(_ & Hpull & _ & Hlive & _) Hloop].
    destruct (replicateRxCollection_started o multiInstance isDestroyed dev
                path h).
    intros Hl. specialize (Hloop Hl). rewrite start_looping0 in Hloop.
    apply andb_prop in Hloop as [[? ?]%andb_prop _]. split; congruence. }
  assert (subscribed w = true -> live w = true /\ is_Some (push w)) as Hsub.
  { by destruct (reachable_invariant w Hreach). }
  split; [exact Hloop|]. split; [exact Hsub|].
  intros Hlive. simpl. split.
  - destruct (looping w); [|done].
    destruct Hloop as [? _]; [done | congruence].
  - intros cE. destruct (subscribed w); [|done].
    destruct Hsub as [? _]; [done | congruence].
Qed.

(** X22: when the wait of the interval loop ends in a stopped state the loop
    returns: nothing is chained, counted or emitted, and the loop never wakes
    again. *)
Theorem interval_loop_ends_when_stopped (w : World) :
  looping w = true ->
  isStopped w = true ->
  exists w',
    step IntervalElapsed w = Some w'
    /\ log w' = log w
    /\ queued w' = queued w
    /\ runQueueCount w' = runQueueCount w
    /\ forall ls w'',
         steps ls w' = Some w'' -> step IntervalElapsed w'' = None.
Proof.
  intros Hloop Hs. exists (set_looping false w). simpl.
  rewrite Hloop. unfold onInterval. rewrite Hs.
  repeat split; try done.
  intros ls w'' [_ Hls]%steps_options. simpl in Hls.
  destruct (looping w''); [|done]. by specialize (Hls eq_refl).
Qed.

End Options.

(** * Properties of util.js *)

Module UtilProperties.
Import Stdlib.Strings.Ascii Util.

(** ** fastUnsecureHash *)

Lemma to_int32_range z : (- 2 ^ 31 <= to_int32 z < 2 ^ 31)%Z.
Proof.
  unfold to_int32.
  pose proof (Z.mod_pos_bound (z + 2 ^ 31) (2 ^ 32)) as Hb. lia.
Qed.

Lemma to_int32_congruent z : exists k, to_int32 z = (z + k * 2 ^ 32)%Z.
Proof.
  exists (- ((z + 2 ^ 31) `div` 2 ^ 32))%Z. unfold to_int32.
  rewrite Z.mod_eq by lia. lia.
Qed.

Lemma to_int32_add_mul z k : to_int32 (z + k * 2 ^ 32) = to_int32 z.
Proof.
  unfold to_int32.
  replace (z + k * 2 ^ 32 + 2 ^ 31)%Z with (z + 2 ^ 31 + k * 2 ^ 32)%Z
    by lia.
  by rewrite Z.mod_add by lia.
Qed.

(** One pass of the loop multiplies by 31 and adds, modulo [2 ^ 32]. *)
Lemma hash_step_horner acc chr :
  hash_step (to_int32 acc) chr = to_int32 (31 * acc + chr).
Proof.
  unfold hash_step. rewrite Z.shiftl_mul_pow2 by lia.
  destruct (to_int32_congruent acc) as [k1 ->].
  destruct (to_int32_congruent (acc + k1 * 2 ^ 32)) as [k2 ->].
  destruct (to_int32_congruent ((acc + k1 * 2 ^ 32 + k2 * 2 ^ 32) * 2 ^ 5))
    as [k3 ->].
  rewrite <- (to_int32_add_mul (31 * acc + chr)
                (32 * k1 + 32 * k2 + k3 - k1)).
  f_equal. lia.
Qed.

Lemma foldl_hash_step obj acc :
  foldl hash_step (to_int32 acc) obj
  = to_int32 (foldl (fun acc chr => (31 * acc + chr)%Z) acc obj).
Proof.
  revert acc. induction obj as [|chr obj IH]; intros acc; simpl; [done|].
  by rewrite hash_step_horner, IH.
Qed.

Lemma hash_loop_horner obj :
  foldl hash_step 0%Z obj = to_int32 (horner31 obj).
Proof. exact (foldl_hash_step obj 0). Qed.

(** X15: [fastUnsecureHash] of a string is the absolute value of the
    polynomial of its code units in 31, reduced to a signed 32-bit integer;
    it is never negative and can be as large as [2 ^ 31] (the negation of
    the least 32-bit integer is not reduced again). *)
Theorem fastUnsecureHash_polynomial (obj : list Z) :
  fastUnsecureHash obj = Z.abs (to_int32 (horner31 obj))
  /\ (0 <= fastUnsecureHash obj <= 2 ^ 31)%Z.
Proof.
  assert (fastUnsecureHash obj = Z.abs (to_int32 (horner31 obj))) as Heq.
  { unfold fastUnsecureHash. destruct obj as [|chr obj]; [done|].
    cbn [length Nat.eqb]. cbv zeta. rewrite hash_loop_horner.
    destruct (Z.ltb_spec (to_int32 (horner31 (chr :: obj))) 0); lia. }
  split; [done|]. rewrite Heq.
  pose proof (to_int32_range (horner31 obj)). lia.
Qed.


(** ** trimDots *)

Lemma trimDots_start_other c rest :
  c <> "."%char -> trimDots_start (c :: rest) = c :: rest.
Proof. by destruct c as [[] [] [] [] [] [] [] []]. Qed.

Lemma trimDots_end_dot fuel str :
  last str = Some "."%char ->
  trimDots_end (S fuel) str = trimDots_end fuel (removelast str).
Proof. intros Hlast. simpl. by rewrite Hlast. Qed.

Lemma trimDots_end_other fuel str :
  last str <> Some "."%char -> trimDots_end fuel str = str.
Proof.
  intros Hlast. destruct fuel as [|fuel]; [done|]. simpl.
  destruct (last str) as [c|]; [|done].
  destruct c as [[] [] [] [] [] [] [] []]; done.
Qed.

Lemma trimDots_start_spec str :
  exists a,
    str = a ++ trimDots_start str /\ Forall is_dot a
    /\ head (trimDots_start str) <> Some "."%char.
Proof.
  induction str as [|c str (a & Heq & Ha & Hhead)].
  - by exists [].
  - destruct (decide (c = "."%char)) as [->|Hc].
    + exists ("."%char :: a). simpl. split; [by f_equal|].
      split; [by constructor|done].
    + exists []. rewrite trimDots_start_other by done.
      repeat split; [constructor|]. simpl. congruence.
Qed.

Lemma trimDots_end_spec fuel str :
  length str <= fuel ->
  exists b,
    str = trimDots_end fuel str ++ b /\ Forall is_dot b
    /\ last (trimDots_end fuel str) <> Some "."%char.
Proof.
  revert str. induction fuel as [|fuel IH]; intros str Hlen.
  - destruct str; [|simpl in Hlen; lia]. by exists [].
  - destruct (decide (last str = Some "."%char)) as [Hlast|Hlast].
    + rewrite trimDots_end_dot by done.
      apply last_Some in Hlast as [init ->].
      rewrite removelast_last.
      rewrite length_app in Hlen. simpl in Hlen.
      destruct (IH init) as (b & Heq & Hb & Hl); [lia|].
      exists (b ++ ["."%char]). split; [by rewrite app_assoc, <- Heq|].
      split; [|done]. apply Forall_app. split; [done|].
      by repeat constructor.
    + rewrite trimDots_end_other by done. exists [].
      by rewrite app_nil_r.
Qed.

(** X17: [trimDots] takes dots, and nothing but dots, off both ends of the
    string: what is left neither starts nor ends with a dot, and the rest of
    the string is kept as it is. *)
Theorem trimDots_trims (str : list ascii) :
  exists a b,
    str = a ++ trimDots str ++ b
    /\ Forall is_dot a /\ Forall is_dot b
    /\ head (trimDots str) <> Some "."%char
    /\ last (trimDots str) <> Some "."%char.
Proof.
  unfold trimDots. cbv zeta.
  destruct (trimDots_start_spec str) as (a & Ha & Hdots & Hhead).
  destruct (trimDots_end_spec (length (trimDots_start str))
              (trimDots_start str)) as (b & Hb & Hbdots & Hlast); [done|].
  exists a, b. rewrite <- Hb. repeat split; try done.
  rewrite Hb in Hhead.
  destruct (trimDots_end _ (trimDots_start str)); [done|exact Hhead].
Qed.

Lemma trimDots_ends (str : list ascii) :
  head (trimDots str) <> Some "."%char
  /\ last (trimDots str) <> Some "."%char.
Proof.
  unfold trimDots. cbv zeta.
  destruct (trimDots_start_spec str) as (a & Ha & Hdots & Hhead).
  destruct (trimDots_end_spec (length (trimDots_start str))
              (trimDots_start str)) as (b & Hb & Hbdots & Hlast); [done|].
  split; [|done]. rewrite Hb in Hhead.
  destruct (trimDots_end _ (trimDots_start str)); [done|exact Hhead].
Qed.

(** X18: [trimDots] is idempotent, and a string that neither starts nor
    ends with a dot is returned as it is. *)
Theorem trimDots_idempotent (str : list ascii) :
  trimDots (trimDots str) = trimDots str
  /\ (head str <> Some "."%char -> last str <> Some "."%char ->
      trimDots str = str).
Proof.
  assert (forall s, head s <> Some "."%char -> last s <> Some "."%char ->
             trimDots s = s) as Hfix.
  { intros s Hhead Hlast. unfold trimDots. cbv zeta.
    assert (trimDots_start s = s) as ->.
    { destruct s as [|c s]; [done|].
      apply trimDots_start_other. simpl in Hhead. congruence. }
    by apply trimDots_end_other. }
  split; [|apply Hfix].
  destruct (trimDots_ends str) as (Hhead & Hlast).
  by apply Hfix.
Qed.

(** ** numberToLetter *)

Lemma base58Length_58 : base58Length = 58%N.
Proof. reflexivity. Qed.

Lemma MAX_SAFE_INTEGER_eq : MAX_SAFE_INTEGER = 9007199254740991%N.
Proof. reflexivity. Qed.

Lemma round_half_even_bounds a b :
  (0 < b)%N ->
  (a / b <= round_half_even a b)%N
  /\ (2 * b * round_half_even a b <= 2 * a + b)%N.
Proof.
  intros Hb. unfold round_half_even. cbv zeta.
  pose proof (N.div_mod a b ltac:(lia)) as Hdm.
  pose proof (N.mod_lt a b ltac:(lia)) as Hmod.
  set (q := (a / b)%N) in *. set (r := (a mod b)%N) in *. clearbody q r.
  destruct (N.ltb_spec (2 * r) b); [nia|].
  destruct (N.ltb_spec b (2 * r)); [nia|].
  destruct (N.even q); nia.
Qed.

(** With enough bits behind the point the integer part of the rounded
    quotient is the integer quotient. *)
Lemma round_half_even_floor a b s :
  (0 < b)%N -> (b < 2 ^ (s + 1))%N ->
  (round_half_even (a * 2 ^ s) b / 2 ^ s = a / b)%N.
Proof.
  intros Hb Hs.
  destruct (round_half_even_bounds (a * 2 ^ s) b Hb) as [Hlow Hup].
  assert (0 < 2 ^ s)%N as Hpos by (apply N.neq_0_lt_0, N.pow_nonzero; lia).
  rewrite N.pow_add_r in Hs. change (2 ^ 1)%N with 2%N in Hs.
  pose proof (N.div_mod a b ltac:(lia)) as Hdm.
  pose proof (N.mod_lt a b ltac:(lia)) as Hmod.
  set (q := (a / b)%N) in *. set (r := (a mod b)%N) in *.
  set (m := round_half_even (a * 2 ^ s) b) in *.
  set (P := (2 ^ s)%N) in *. clearbody q r m P.
  assert (q * P <= m)%N as Hge.
  { etrans; [|exact Hlow]. apply N.div_le_lower_bound; [lia|].
    subst a. nia. }
  assert (m < (q + 1) * P)%N as Hlt.
  { apply N.lt_nge. intros Hle.
    assert (2 * b * ((q + 1) * P) <= 2 * b * m)%N as H1
      by (apply N.mul_le_mono_l; exact Hle).
    assert ((r + 1) * P <= b * P)%N as H2
      by (apply N.mul_le_mono_r; lia).
    subst a. nia. }
  symmetry. apply (N.div_unique m P q (m - q * P)); lia.
Qed.

Lemma Math_floor_significand a b e :
  (e < 0)%Z -> (0 < b)%N -> (b < 2 ^ (Z.to_N (- e) + 1))%N ->
  Math_floor (significand a b e, e) = (a / b)%N.
Proof.
  intros He Hb Hs. unfold Math_floor, significand, scaled.
  destruct (Z.ltb_spec e 0); [|lia].
  by apply round_half_even_floor.
Qed.

Lemma Math_floor_quotient nr :
  (nr <= MAX_SAFE_INTEGER)%N ->
  Math_floor (nearest_double nr base58Length) = (nr / base58Length)%N.
Proof.
  intros Hnr. unfold nearest_double.
  destruct (N.eqb_spec nr 0) as [->|Hne]; [done|].
  assert (N.log2 nr < 53)%N as Hlog.
  { apply N.log2_lt_pow2; [lia|]. rewrite MAX_SAFE_INTEGER_eq in Hnr.
    change (2 ^ 53)%N with 9007199254740992%N. lia. }
  change (N.log2 base58Length) with 5%N. cbv zeta.
  apply Math_floor_significand; [by case_match; lia | done |].
  rewrite base58Length_58.
  apply (N.lt_le_trans _ (2 ^ 6)); [done|].
  apply N.pow_le_mono_r; [done|]. case_match; lia.
Qed.

Lemma Math_floor_decrement nr :
  (nr <= MAX_SAFE_INTEGER)%N ->
  Math_floor (nearest_double nr 1) = nr.
Proof.
  intros Hnr. unfold nearest_double.
  destruct (N.eqb_spec nr 0) as [->|Hne]; [done|].
  assert (N.log2 nr < 53)%N as Hlog.
  { apply N.log2_lt_pow2; [lia|]. rewrite MAX_SAFE_INTEGER_eq in Hnr.
    change (2 ^ 53)%N with 9007199254740992%N. lia. }
  change (N.log2 1) with 0%N. cbv zeta.
  set (e := if below_2_53 nr 1 _ then _ else _).
  destruct (Z.ltb_spec e 0) as [He|He].
  - rewrite Math_floor_significand; [by rewrite N.div_1_r | done..|].
    apply (N.lt_le_trans _ (2 ^ 1)); [done|].
    apply N.pow_le_mono_r; [done|]. lia.
  - assert (e = 0%Z) as -> by (unfold e in *; case_match; lia).
    unfold Math_floor, significand, scaled, round_half_even. simpl.
    rewrite N.div_1_r, N.mod_1_r. simpl. lia.
Qed.

Lemma numberToLetter_loop_nonempty fuel nr :
  numberToLetter_loop fuel nr <> [].
Proof. destruct fuel; simpl; [done|]. by case_match. Qed.

Lemma numberToLetter_loop_digits fuel nr :
  Forall (fun v => (v < 58)%N) (numberToLetter_loop fuel nr).
Proof.
  revert nr. induction fuel as [|fuel IH]; intros nr; simpl.
  - repeat constructor. apply N.mod_lt. done.
  - case_match.
    + constructor; [by apply N.mod_lt|]. apply IH.
    + repeat constructor. by apply N.mod_lt.
Qed.

(** One pass on a safe integer: the quotient is exact, and what is left for
    the next pass is a smaller safe integer. *)
Lemma numberToLetter_pass nr :
  (nr <= MAX_SAFE_INTEGER)%N -> (0 < nr / 58)%N ->
  Math_floor (nearest_double (nr / 58 - 1) 1) = (nr / 58 - 1)%N
  /\ (nr / 58 - 1 <= MAX_SAFE_INTEGER)%N
  /\ (N.log2 (nr / 58 - 1) < N.log2 nr)%N.
Proof.
  intros Hnr Hq.
  pose proof (N.div_mod nr 58 ltac:(done)) as Hdm.
  set (q := (nr / 58)%N) in *. set (v := (nr mod 58)%N) in *. clearbody q v.
  assert (q - 1 <= MAX_SAFE_INTEGER)%N as Hsafe.
  { rewrite MAX_SAFE_INTEGER_eq in *. lia. }
  split; [by apply Math_floor_decrement|]. split; [done|].
  destruct (N.eq_dec (q - 1)%N 0%N) as [->|Hpos].
  - apply N.log2_pos. lia.
  - apply (N.lt_le_trans _ (N.log2 (2 * (q - 1)))).
    + rewrite N.log2_double by lia. lia.
    + apply N.log2_le_mono. lia.
Qed.

(** The pass that finds the quotient 0 is the last one. *)
Lemma numberToLetter_loop_last fuel nr :
  (nr <= MAX_SAFE_INTEGER)%N -> (nr / 58 = 0)%N ->
  numberToLetter_loop fuel nr = [(nr mod 58)%N].
Proof.
  intros Hnr Hq. destruct fuel; cbn [numberToLetter_loop]; cbv zeta;
    rewrite ?(Math_floor_quotient nr Hnr), base58Length_58, ?Hq; done.
Qed.

Lemma numberToLetter_loop_next fuel nr :
  (nr <= MAX_SAFE_INTEGER)%N -> (0 < nr / 58)%N ->
  numberToLetter_loop (S fuel) nr
  = (nr mod 58)%N :: numberToLetter_loop fuel (nr / 58 - 1)%N.
Proof.
  intros Hnr Hq. cbn [numberToLetter_loop]. cbv zeta.
  rewrite (Math_floor_quotient nr Hnr), base58Length_58.
  destruct (numberToLetter_pass nr Hnr Hq) as (-> & _).
  by destruct (N.ltb_spec 0 (nr / 58)) as [_|Hq']; [|by apply N.lt_nge in Hq].
Qed.

(** [log2 nr] passes of the loop are enough for a safe integer: the digits
    pushed stand for [nr]. *)
Lemma numberToLetter_loop_unfold fuel nr :
  (nr <= MAX_SAFE_INTEGER)%N ->
  N.to_nat (N.log2 nr) <= fuel ->
  number_of_digits (numberToLetter_loop fuel nr) = nr.
Proof.
  revert nr. induction fuel as [|fuel IH]; intros nr Hnr Hfuel.
  - assert (N.log2 nr = 0%N) as Hlog by lia. apply N.log2_null in Hlog.
    rewrite numberToLetter_loop_last; [|done|apply N.div_small; lia].
    simpl. apply N.mod_small. lia.
  - pose proof (N.div_mod nr 58 ltac:(done)) as Hdm.
    pose proof (N.mod_lt nr 58 ltac:(done)) as Hmod.
    destruct (N.eq_dec (nr / 58)%N 0%N) as [Hq|Hq].
    + rewrite numberToLetter_loop_last by done. simpl.
      rewrite Hq in Hdm. lia.
    + assert (0 < nr / 58)%N as Hpos by (by apply N.neq_0_lt_0).
      rewrite numberToLetter_loop_next by done.
      destruct (numberToLetter_pass nr Hnr Hpos) as (_ & Hsafe & Hlog).
      specialize (IH (nr / 58 - 1)%N Hsafe ltac:(lia)).
      pose proof (numberToLetter_loop_nonempty fuel (nr / 58 - 1)) as Hne.
      set (q := (nr / 58)%N) in *. set (v := (nr mod 58)%N) in *.
      clearbody q v.
      destruct (numberToLetter_loop fuel (q - 1)) as [|v' digits]
        eqn:Hloop; [done|].
      change (number_of_digits (v :: v' :: digits))
        with (v + base58Length * (number_of_digits (v' :: digits) + 1))%N.
      rewrite base58Length_58. lia.
Qed.

(** *** The loop ends for every number *)

(** The rounded quotient is not far above the quotient. *)
Lemma Math_floor_nearest_double_le a b :
  (0 < a)%N -> (0 < b)%N ->
  (2 * b * Math_floor (nearest_double a b) <= 3 * a + b)%N.
Proof.
  intros Ha Hb. unfold nearest_double.
  destruct (N.eqb_spec a 0) as [->|_]; [lia|]. cbv zeta.
  destruct (N.log2_spec a Ha) as [Hla _].
  destruct (N.log2_spec b Hb) as [_ Hlb].
  set (la := N.log2 a) in *. set (lb := N.log2 b) in *.
  set (e := if below_2_53 a b _ then _ else _).
  assert (e <= Z.of_N la - Z.of_N lb - 52)%Z as He
    by (unfold e; case_match; lia).
  clearbody e la lb.
  unfold Math_floor, significand, scaled.
  destruct (Z.ltb_spec e 0) as [Hneg|Hpos].
  - set (s := Z.to_N (- e)).
    destruct (round_half_even_bounds (a * 2 ^ s) b Hb) as [_ Hup].
    assert (0 < 2 ^ s)%N as HP
      by (apply N.neq_0_lt_0, N.pow_nonzero; lia).
    pose proof (N.Div0.mul_div_le (round_half_even (a * 2 ^ s) b) (2 ^ s))
      as Hfloor.
    set (m := round_half_even (a * 2 ^ s) b) in *.
    set (f := (m / 2 ^ s)%N) in *. set (P := (2 ^ s)%N) in *.
    clearbody m f P.
    assert (P * (2 * b * f) <= P * (2 * a + b))%N as Hle by nia.
    apply N.mul_le_mono_pos_l in Hle; lia.
  - set (s := Z.to_N e).
    assert (0 < 2 ^ s)%N as HP
      by (apply N.neq_0_lt_0, N.pow_nonzero; lia).
    destruct (round_half_even_bounds a (b * 2 ^ s)) as [_ Hup]; [lia|].
    assert (b * 2 ^ s <= a)%N as Hsmall.
    { etrans; [|exact Hla].
      etrans; [apply N.mul_le_mono_r, N.lt_le_incl, Hlb|].
      rewrite <- N.pow_add_r. apply N.pow_le_mono_r; [done|]. lia. }
    set (m := round_half_even a (b * 2 ^ s)) in *. set (P := (2 ^ s)%N) in *.
    clearbody m P. nia.
Qed.

(** What is left behind a pass that is not the last is less than half of
    [nr]. *)
Lemma numberToLetter_pass_smaller nr :
  (0 < Math_floor (nearest_double nr base58Length))%N ->
  (N.log2
     (Math_floor
        (nearest_double (Math_floor (nearest_double nr base58Length) - 1) 1))
   < N.log2 nr)%N.
Proof.
  rewrite base58Length_58. intros Hq.
  assert (0 < nr)%N as Hnr.
  { apply N.neq_0_lt_0. intros ->. by apply N.lt_irrefl in Hq. }
  pose proof (Math_floor_nearest_double_le nr 58 Hnr ltac:(done)) as Hle.
  set (q := Math_floor (nearest_double nr 58)) in *. clearbody q.
  destruct (N.eq_dec (q - 1)%N 0%N) as [->|Hpos].
  - apply N.log2_pos. lia.
  - pose proof (Math_floor_nearest_double_le (q - 1) 1 ltac:(lia)
                  ltac:(done)) as Hle'.
    set (next := Math_floor (nearest_double (q - 1) 1)) in *.
    clearbody next.
    destruct (N.eq_dec next 0%N) as [->|Hnext]; [apply N.log2_pos; lia|].
    apply (N.lt_le_trans _ (N.log2 (2 * next))).
    + rewrite N.log2_double by lia. lia.
    + apply N.log2_le_mono. lia.
Qed.

(** More passes change nothing: the loop has ended. *)
Lemma numberToLetter_loop_fuel fuel fuel' nr :
  N.to_nat (N.log2 nr) <= fuel -> N.to_nat (N.log2 nr) <= fuel' ->
  numberToLetter_loop fuel nr = numberToLetter_loop fuel' nr.
Proof.
  revert fuel' nr.
  induction fuel as [|fuel IH]; intros fuel' nr Hfuel Hfuel'.
  - destruct fuel' as [|fuel']; [done|]. cbn [numberToLetter_loop]. cbv zeta.
    destruct (N.ltb_spec 0 (Math_floor (nearest_double nr base58Length)))
      as [Hq|Hq]; [|done].
    apply numberToLetter_pass_smaller in Hq. lia.
  - cbn [numberToLetter_loop]. cbv zeta.
    destruct (N.ltb_spec 0 (Math_floor (nearest_double nr base58Length)))
      as [Hq|Hq].
    + pose proof (numberToLetter_pass_smaller nr Hq) as Hlog.
      destruct fuel' as [|fuel']; [lia|].
      cbn [numberToLetter_loop]. cbv zeta.
      destruct (N.ltb_spec 0 (Math_floor (nearest_double nr base58Length)));
        [|lia].
      f_equal. apply IH; lia.
    + destruct fuel' as [|fuel']; [done|].
      cbn [numberToLetter_loop]. cbv zeta.
      by destruct (N.ltb_spec 0
                     (Math_floor (nearest_double nr base58Length)));
        [lia|].
Qed.

Lemma get_lookup (s : string) (n : nat) :
  String.get n s = String.list_ascii_of_string s !! n.
Proof.
  revert n. induction s as [|c s IH]; intros [|n]; simpl; auto.
Qed.

Lemma base58Chars_NoDup : NoDup (String.list_ascii_of_string base58Chars).
Proof. apply (bool_decide_unpack _). vm_compute. exact I. Qed.

Lemma base58Char_digit d :
  (d < 58)%N ->
  exists c,
    base58Char d = String c EmptyString
    /\ String.list_ascii_of_string base58Chars !! N.to_nat d = Some c.
Proof.
  intros Hd. unfold base58Char. rewrite get_lookup.
  destruct (lookup_lt_is_Some_2 (String.list_ascii_of_string base58Chars)
              (N.to_nat d)) as [c Hc].
  { change (length (String.list_ascii_of_string base58Chars)) with 58. lia. }
  exists c. by rewrite Hc.
Qed.

Lemma base58Char_inj d d' :
  (d < 58)%N -> (d' < 58)%N -> base58Char d = base58Char d' -> d = d'.
Proof.
  intros Hd Hd' Heq.
  destruct (base58Char_digit d Hd) as (c & Hc & Hl).
  destruct (base58Char_digit d' Hd') as (c' & Hc' & Hl').
  rewrite Hc, Hc' in Heq. injection Heq as <-.
  pose proof (NoDup_lookup _ _ _ _ base58Chars_NoDup Hl Hl'). lia.
Qed.

(** The characters joined: as many as digits, and the digits can be read
    off them. *)
Lemma joined_length digits :
  Forall (fun v => (v < 58)%N) digits ->
  String.length (foldr String.append EmptyString (base58Char <$> digits))
  = length digits.
Proof.
  induction 1 as [|d digits Hd _ IH]; [done|]. simpl.
  destruct (base58Char_digit d Hd) as (c & -> & _). simpl. f_equal.
  exact IH.
Qed.

Lemma joined_inj digits digits' :
  Forall (fun v => (v < 58)%N) digits ->
  Forall (fun v => (v < 58)%N) digits' ->
  foldr String.append EmptyString (base58Char <$> digits)
  = foldr String.append EmptyString (base58Char <$> digits') ->
  digits = digits'.
Proof.
  intros Hdigits. revert digits'.
  induction Hdigits as [|d digits Hd _ IH]; intros digits' Hdigits' Heq.
  - destruct Hdigits' as [|d' digits' Hd' _]; [done|]. simpl in Heq.
    by destruct (base58Char_digit d' Hd') as (c & Hc & _); rewrite Hc in Heq.
  - destruct Hdigits' as [|d' digits' Hd' Hdigits']; simpl in Heq.
    { by destruct (base58Char_digit d Hd) as (c & Hc & _);
        rewrite Hc in Heq. }
    destruct (base58Char_digit d Hd) as (c & Hc & _).
    destruct (base58Char_digit d' Hd') as (c' & Hc' & _).
    rewrite Hc, Hc' in Heq. simpl in Heq. injection Heq as Hcc Hrest.
    f_equal; [|by apply IH].
    apply base58Char_inj; [done..|]. by rewrite Hc, Hc', Hcc.
Qed.

(** X19: for a safe integer [nr] the loop of [numberToLetter] pushes the
    digits of [nr] in the bijective numeration of base 58: the loop ends
    within [log2 nr] passes behind the first, every digit is below 58, there
    is at least one, they stand for [nr], and the result has one character
    of [base58Chars] per digit. *)
Theorem numberToLetter_digits (nr : N) :
  (nr <= MAX_SAFE_INTEGER)%N ->
  (forall fuel,
     N.to_nat (N.log2 nr) <= fuel ->
     numberToLetter_loop fuel nr
     = numberToLetter_loop (N.to_nat (N.log2 nr)) nr)
  /\ number_of_digits (numberToLetter_loop (N.to_nat (N.log2 nr)) nr) = nr
  /\ Forall (fun v => (v < base58Length)%N)
       (numberToLetter_loop (N.to_nat (N.log2 nr)) nr)
  /\ 1 <= length (numberToLetter_loop (N.to_nat (N.log2 nr)) nr)
  /\ String.length (numberToLetter nr)
     = length (numberToLetter_loop (N.to_nat (N.log2 nr)) nr).
Proof.
  intros Hnr.
  split; [intros fuel Hfuel; by apply numberToLetter_loop_fuel|].
  split; [by apply numberToLetter_loop_unfold|].
  split; [apply numberToLetter_loop_digits|]. split.
  - pose proof (numberToLetter_loop_nonempty (N.to_nat (N.log2 nr)) nr).
    destruct (numberToLetter_loop _ nr); [done|]. simpl. lia.
  - unfold numberToLetter. cbv zeta. rewrite joined_length.
    + by rewrite length_rev.
    + apply Forall_rev, numberToLetter_loop_digits.
Qed.

(** X16: [numberToLetter] gives different strings for different safe
    integers. *)
Theorem numberToLetter_injective (n m : N) :
  (n <= MAX_SAFE_INTEGER)%N -> (m <= MAX_SAFE_INTEGER)%N ->
  numberToLetter n = numberToLetter m -> n = m.
Proof.
  unfold numberToLetter. cbv zeta. intros Hn Hm Heq.
  apply joined_inj in Heq;
    [|apply Forall_rev, numberToLetter_loop_digits..].
  apply (f_equal (@rev N)) in Heq. rewrite !rev_involutive in Heq.
  rewrite <- (numberToLetter_loop_unfold (N.to_nat (N.log2 n)) n) by done.
  rewrite <- (numberToLetter_loop_unfold (N.to_nat (N.log2 m)) m) by done.
  by rewrite Heq.
Qed.

(** Beyond the safe integers the quotient is rounded: the digits pushed for
    the double 32660220411895156 stand for another number. *)
Lemma numberToLetter_loop_rounds :
  Math_floor (nearest_double 32660220411895156 base58Length)
  = (32660220411895156 / base58Length + 1)%N
  /\ number_of_digits
       (numberToLetter_loop (N.to_nat (N.log2 32660220411895156))
          32660220411895156)
     = 32660220411895214%N.
Proof. split; vm_compute; reflexivity. Qed.

End UtilProperties.

(** * Runs of the further properties *)
Section FurtherRuns.
#[local] Existing Instance Demo.collaborators.

(** X1: alice is pushed; she has no [_deleted]. *)
Lemma push_sends_wire_documents_witness :
  Forall
    (fun row =>
       row_doc row.2 < length (objects (Demo.start false Demo.pushOptions true)))
    (changedDocs Demo.alice_changed)
  /\ objects
       (runPush_collected true true Demo.alice_changed
          (Demo.start false Demo.pushOptions true))
     = [Demo.alice; Demo.bob; <["_deleted" := JBool false]> Demo.alice].
Proof.
  assert (Forall
            (fun row =>
               row_doc row.2
               < length (objects (Demo.start false Demo.pushOptions true)))
            (changedDocs Demo.alice_changed)) as Hrows.
  { repeat constructor. }
  split; [exact Hrows|].
  destruct (push_sends_wire_documents
              (Demo.start false Demo.pushOptions true) true true
              Demo.alice_changed Hrows) as (Hobjects & _).
  rewrite Hobjects. vm_compute. reflexivity.
Defined.

(** X3: the handler of a canceled pull resolves. *)
Lemma stopped_is_final_witness :
  isStopped Scenario.canceled_during_pull = true
  /\ step (Settles (ResolvedPull Demo.both_pulled))
       Scenario.canceled_during_pull
     = Some (Demo.after [Settles (ResolvedPull Demo.both_pulled)]
               Scenario.canceled_during_pull)
  /\ isStopped
       (Demo.after [Settles (ResolvedPull Demo.both_pulled)]
          Scenario.canceled_during_pull) = true.
Proof.
  assert (isStopped Scenario.canceled_during_pull = true) as Hstopped
    by (vm_compute; reflexivity).
  assert (step (Settles (ResolvedPull Demo.both_pulled))
            Scenario.canceled_during_pull
          = Some (Demo.after [Settles (ResolvedPull Demo.both_pulled)]
                    Scenario.canceled_during_pull)) as Hstep
    by (vm_compute; reflexivity).
  split; [exact Hstopped|]. split; [exact Hstep|].
  exact (stopped_is_final _ _ _ Hstopped Hstep).
Defined.

Lemma reachable_after_burst : reachable Scenario.after_burst.
Proof.
  apply (reachable_after true None true
           (ClosureStarts :: (CallRun <$> Demo.burst))).
  vm_compute. reflexivity.
Qed.

(** X4: one closure executes and two wait; the third call of the burst was
    not chained. *)
Lemma runQueueCount_counts_closures_witness :
  reachable Scenario.after_burst
  /\ runQueueCount Scenario.after_burst = 3%Z
  /\ pending Scenario.after_burst = 3%Z
  /\ active Scenario.after_burst = true.
Proof.
  split; [exact reachable_after_burst|].
  destruct (runQueueCount_counts_closures _ reachable_after_burst)
    as (_ & Hcount & Hactive).
  split; [reflexivity|]. split.
  - generalize Hcount. vm_compute. exact (fun e => eq_sym e).
  - generalize Hactive. vm_compute. exact (fun e => e).
Defined.

(** X5: a write behind the cancellation of a live push. *)
Lemma canceled_is_unsubscribed_witness :
  reachable Demo.canceled_during_push
  /\ canceled Demo.canceled_during_push = true
  /\ subscribed Demo.canceled_during_push = false
  /\ step (ChangeEvent Demo.localWrite) Demo.canceled_during_push = None.
Proof.
  assert (canceled Demo.canceled_during_push = true) as Hcanceled
    by reflexivity.
  split; [exact reachable_canceled_during_push|].
  split; [exact Hcanceled|].
  exact (canceled_is_unsubscribed _ Demo.localWrite
           reachable_canceled_during_push Hcanceled).
Defined.

(** X6: the handler throws in the cycle of the interval loop; the only timer
    is the one of the first cycle. *)
Lemma no_retry_sets_no_timer_witness :
  cycle_of_step (Settles (Rejected "offline"))
    Scenario.interval_cycle_awaits_handler = Some false
  /\ step (Settles (Rejected "offline"))
       Scenario.interval_cycle_awaits_handler
     = Some (Demo.after [Settles (Rejected "offline")]
               Scenario.interval_cycle_awaits_handler)
  /\ timers
       (Demo.after [Settles (Rejected "offline")]
          Scenario.interval_cycle_awaits_handler) = [60000%Z].
Proof.
  assert (cycle_of_step (Settles (Rejected "offline"))
            Scenario.interval_cycle_awaits_handler = Some false) as Hcycle
    by (vm_compute; reflexivity).
  assert (step (Settles (Rejected "offline"))
            Scenario.interval_cycle_awaits_handler
          = Some (Demo.after [Settles (Rejected "offline")]
                    Scenario.interval_cycle_awaits_handler)) as Hstep
    by (vm_compute; reflexivity).
  split; [exact Hcycle|]. split; [exact Hstep|].
  rewrite (no_retry_sets_no_timer _ _ _ Hcycle Hstep).
  vm_compute. reflexivity.
Defined.

(** X7: [pull.handler] throws in the first cycle of a one-shot pull. *)
Lemma pull_handler_failure_witness :
  running Demo.pull_awaits_handler = Some (AtPullHandler true true)
  /\ exists w',
       step (Settles (Rejected "offline")) Demo.pull_awaits_handler
       = Some w'
       /\ log w'
          = log Demo.pull_awaits_handler
            ++ [Error "offline"; SetTimeout 60000; Active false]
       /\ timers w' = [60000%Z]
       /\ running w' = None.
Proof.
  split; [reflexivity|].
  destruct (pull_handler_failure Demo.pull_awaits_handler true true
              "offline" eq_refl)
    as (w' & Hstep & Hlog & Htimers & _ & Hrunning).
  exists w'. split; [exact Hstep|].
  split; [|split; [|exact Hrunning]].
  - generalize Hlog. vm_compute. exact (fun e => e).
  - generalize Htimers. vm_compute. exact (fun e => e).
Defined.

(** X8: the handler of a canceled live pull resolves with two documents. *)
Lemma stopped_pull_drops_result_witness :
  running Scenario.canceled_during_pull = Some (AtPullHandler true true)
  /\ isStopped Scenario.canceled_during_pull = true
  /\ exists w',
       step (Settles (ResolvedPull Demo.both_pulled))
         Scenario.canceled_during_pull = Some w'
       /\ log w'
          = log Scenario.canceled_during_pull
            ++ [Active false; InitialReplicationComplete true]
       /\ objects w' = [Demo.alice; Demo.bob].
Proof.
  assert (isStopped Scenario.canceled_during_pull = true) as Hstopped
    by (vm_compute; reflexivity).
  split; [reflexivity|]. split; [exact Hstopped|].
  destruct (stopped_pull_drops_result Scenario.canceled_during_pull true
              true Demo.both_pulled eq_refl Hstopped)
    as (w' & Hstep & Hlog & _ & Hobjects & _).
  { intros Hdev. vm_compute in Hdev. discriminate Hdev. }
  exists w'. split; [exact Hstep|]. split.
  - generalize Hlog. vm_compute. exact (fun e => e).
  - generalize Hobjects. vm_compute. exact (fun e => e).
Defined.

(** X9: the checkpoint of a batch with more behind it is written after the
    cancellation. *)
Lemma stopped_pull_ends_pagination_witness :
  running Scenario.canceled_during_checkpoint
  = Some (AtSetLastPullDocument true true Scenario.more_pulled)
  /\ isStopped Scenario.canceled_during_checkpoint = true
  /\ pull Scenario.canceled_during_checkpoint = true
  /\ exists w',
       step (Settles Resolved) Scenario.canceled_during_checkpoint = Some w'
       /\ log w'
          = log Scenario.canceled_during_checkpoint
            ++ [Entered M_runPull; Active false;
                InitialReplicationComplete true]
       /\ running w' = None.
Proof.
  assert (isStopped Scenario.canceled_during_checkpoint = true) as Hstopped
    by (vm_compute; reflexivity).
  split; [reflexivity|]. split; [exact Hstopped|]. split; [reflexivity|].
  destruct (stopped_pull_ends_pagination
              Scenario.canceled_during_checkpoint true true
              Scenario.more_pulled eq_refl Hstopped eq_refl)
    as (w' & Hstep & Hlog & _ & Hrunning).
  exists w'. split; [exact Hstep|]. split; [exact Hlog | exact Hrunning].
Defined.

(** X11: the second pulled document has no primary key. *)
Lemma invalid_document_rejects_batch_witness :
  running Scenario.dev_pull_awaits_handler = Some (AtPullHandler true true)
  /\ devMode Scenario.dev_pull_awaits_handler = true
  /\ exists w',
       step (Settles (ResolvedPull Scenario.alice_and_nameless))
         Scenario.dev_pull_awaits_handler = Some w'
       /\ log w'
          = log Scenario.dev_pull_awaits_handler
            ++ [Error "VD2"; SetTimeout 60000; Active false]
       /\ objects w' = [Demo.alice; Scenario.nameless].
Proof.
  split; [reflexivity|]. split; [reflexivity|].
  destruct (invalid_document_rejects_batch Scenario.dev_pull_awaits_handler
              true true Scenario.alice_and_nameless eq_refl eq_refl)
    as (w' & err & Hstep & Hvalidate & Hlog & Hobjects & _).
  { apply Exists_cons_tl, Exists_cons_hd. vm_compute. discriminate. }
  assert (err = "VD2"%string) as ->.
  { vm_compute in Hvalidate. by injection Hvalidate as <-. }
  exists w'. split; [exact Hstep|]. split.
  - generalize Hlog. vm_compute. exact (fun e => e).
  - generalize Hobjects. vm_compute. exact (fun e => e).
Defined.

(** X12: alice and bob are pulled by a one-shot pull; the local storage has
    alice at height 4. *)
Lemma pulled_batch_is_written_then_received_witness :
  running Scenario.pull_awaits_found
  = Some (AtFindDocumentsById true true Demo.both_pulled)
  /\ Forall (fun doc => doc < length (objects Scenario.pull_awaits_found))
       (documents Demo.both_pulled)
  /\ lastOfArray (documents Demo.both_pulled) = Some 1
  /\ exists w',
       steps [Settles (ResolvedFound Demo.alice_stored); Settles Resolved]
         Scenario.pull_awaits_found = Some w'
       /\ log w'
          = log Scenario.pull_awaits_found
            ++ [BulkAddRevisions
                  [<["_rev" := JStr "5-pullrep"]> Demo.alice;
                   <["_rev" := JStr "1-pullrep"]> Demo.bob];
                Received 0; Received 1; SetLastPullDocument "rep" 1]
       /\ running w'
          = Some (AtSetLastPullDocument true true Demo.both_pulled).
Proof.
  assert (Forall
            (fun doc => doc < length (objects Scenario.pull_awaits_found))
            (documents Demo.both_pulled)) as Hdocs.
  { repeat constructor. }
  split; [reflexivity|]. split; [exact Hdocs|]. split; [reflexivity|].
  destruct (pulled_batch_is_written_then_received
              Scenario.pull_awaits_found true true Demo.both_pulled
              Demo.alice_stored 1 eq_refl Hdocs eq_refl)
    as (w' & Hsteps & Hlog & Hrunning & _).
  exists w'. split; [exact Hsteps|]. split; [|exact Hrunning].
  generalize Hlog. vm_compute. exact (fun e => e).
Defined.

Lemma reachable_interval_cycle_awaits_handler :
  reachable Scenario.interval_cycle_awaits_handler.
Proof.
  apply (reachable_after true None true
           [ClosureStarts; Demo.no_lastPullDocument;
            Settles (Rejected "offline"); IntervalElapsed; ClosureStarts;
            Demo.no_lastPullDocument]).
  vm_compute. reflexivity.
Qed.

(** X13: the first cycle has ended and the cycle of the interval loop
    executes. *)
Lemma active_alternates_witness :
  reachable Scenario.interval_cycle_awaits_handler
  /\ List.filter on_active (log Scenario.interval_cycle_awaits_handler)
     = [Active true; Active false; Active true]
  /\ runCount Scenario.interval_cycle_awaits_handler = 2%Z.
Proof.
  split; [exact reachable_interval_cycle_awaits_handler|].
  destruct (active_alternates _ reachable_interval_cycle_awaits_handler)
    as (n & Hlog & Hcount).
  split; [|reflexivity].
  rewrite Hlog.
  assert (n = 1) as ->; [|reflexivity].
  assert (runCount Scenario.interval_cycle_awaits_handler = 2%Z) as Htwo
    by reflexivity.
  rewrite Htwo in Hcount.
  assert (active Scenario.interval_cycle_awaits_handler = true) as Hactive
    by reflexivity.
  rewrite Hactive in Hcount. lia.
Defined.

(** X14: [push.handler] resolves in the first cycle; alice was sent. *)
Lemma push_success_persists_then_drains_witness :
  running Demo.push_awaits_handler
  = Some (AtPushHandler true true Demo.alice_changed [2])
  /\ push Demo.push_awaits_handler = Some {| batchSize := None |}
  /\ changedDocs Demo.alice_changed <> []
  /\ exists w',
       steps [Settles Resolved; Settles Resolved] Demo.push_awaits_handler
       = Some w'
       /\ log w'
          = log Demo.push_awaits_handler
            ++ [Send 2; SetLastPushSequence "rep" 7; Entered M_runPush;
                GetChangesSinceLastPushSequence "rep" 5]
       /\ running w' = Some (AtGetChanges true false).
Proof.
  assert (changedDocs Demo.alice_changed <> []) as Hne by discriminate.
  split; [reflexivity|]. split; [reflexivity|]. split; [exact Hne|].
  destruct (push_success_persists_then_drains Demo.push_awaits_handler
              {| batchSize := None |} true true Demo.alice_changed [2]
              eq_refl eq_refl Hne)
    as (w' & Hsteps & Hlog & Hrunning).
  exists w'. split; [exact Hsteps|]. split; [|exact Hrunning].
  generalize Hlog. vm_compute. exact (fun e => e).
Defined.

(** X21: the loop of a live pull. *)
Lemma loop_and_subscription_need_live_witness :
  reachable Demo.pull_in_flight
  /\ looping Demo.pull_in_flight = true
  /\ live Demo.pull_in_flight = true
  /\ pull Demo.pull_in_flight = true.
Proof.
  assert (looping Demo.pull_in_flight = true) as Hloop by reflexivity.
  split; [exact reachable_pull_in_flight|]. split; [exact Hloop|].
  destruct (loop_and_subscription_need_live _ reachable_pull_in_flight)
    as (Hlive & _).
  exact (Hlive Hloop).
Defined.

(** X22: the wait of the interval loop ends behind the cancellation. *)
Lemma interval_loop_ends_when_stopped_witness :
  looping Scenario.canceled_during_pull = true
  /\ isStopped Scenario.canceled_during_pull = true
  /\ exists w',
       step IntervalElapsed Scenario.canceled_during_pull = Some w'
       /\ log w' = log Scenario.canceled_during_pull
       /\ step IntervalElapsed w' = None.
Proof.
  assert (looping Scenario.canceled_during_pull = true) as Hloop
    by reflexivity.
  assert (isStopped Scenario.canceled_during_pull = true) as Hstopped
    by (vm_compute; reflexivity).
  split; [exact Hloop|]. split; [exact Hstopped|].
  destruct (interval_loop_ends_when_stopped _ Hloop Hstopped)
    as (w' & Hstep & Hlog & _ & _ & Hnever).
  exists w'. split; [exact Hstep|]. split; [exact Hlog|].
  exact (Hnever [] w' eq_refl).
Defined.

(** X19: ten millions, the number of the comment of line 178. *)
Lemma numberToLetter_digits_witness :
  (10000000 <= Util.MAX_SAFE_INTEGER)%N
  /\ Util.numberToLetter_loop (N.to_nat (N.log2 10000000)) 10000000
     = [46; 36; 13; 50]%N
  /\ Util.number_of_digits [46; 36; 13; 50]%N = 10000000%N
  /\ String.length (Util.numberToLetter 10000000) = 4.
Proof.
  assert (10000000 <= Util.MAX_SAFE_INTEGER)%N as Hsafe
    by (vm_compute; discriminate).
  assert (Util.numberToLetter_loop (N.to_nat (N.log2 10000000)) 10000000
          = [46; 36; 13; 50]%N) as Hloop by (vm_compute; reflexivity).
  split; [exact Hsafe|]. split; [exact Hloop|].
  destruct (UtilProperties.numberToLetter_digits 10000000 Hsafe)
    as (_ & Hnumber & _ & _ & Hlength).
  rewrite Hloop in Hnumber, Hlength. split; [exact Hnumber | exact Hlength].
Defined.

(** X16: 3421 written in two ways. *)
Lemma numberToLetter_injective_witness :
  (3421 <= Util.MAX_SAFE_INTEGER)%N
  /\ (58 * 58 + 57 <= Util.MAX_SAFE_INTEGER)%N
  /\ Util.numberToLetter 3421 = Util.numberToLetter (58 * 58 + 57)
  /\ (3421 = 58 * 58 + 57)%N.
Proof.
  assert (3421 <= Util.MAX_SAFE_INTEGER)%N as Hn
    by (vm_compute; discriminate).
  assert (58 * 58 + 57 <= Util.MAX_SAFE_INTEGER)%N as Hm
    by (vm_compute; discriminate).
  assert (Util.numberToLetter 3421 = Util.numberToLetter (58 * 58 + 57))
    as Heq by (vm_compute; reflexivity).
  split; [exact Hn|]. split; [exact Hm|]. split; [exact Heq|].
  exact (UtilProperties.numberToLetter_injective _ _ Hn Hm Heq).
Defined.

End FurtherRuns.
